(** * playback.py: stream prober, frame reader and acquisition controller

    A shallow embedding of [src/playback.py].  Python integers are [Z],
    byte strings are [list byte], the values [json.loads] produces are the
    inductive [json], and code that can raise returns [res].  The two
    threads of the program ([main] and [frame_reader]) are step functions
    over one shared state; what the outside world does (the probe tool, the
    decode process, the keyboard) enters as an argument of a step, and what
    the machine can allocate is a parameter, [Machine].  Log
    lines and the frames-per-second counter of [main], which only feeds a
    log line, are left out. *)

From Stdlib Require Import ZArith List String Lia Bool.
From Stdlib Require QArith.
From Stdlib.Strings Require Import Byte.
From Stdlib Require Import DecimalString.
From stdpp Require Import base list strings.

Local Set Warnings "-register-all".
Local Open Scope Z_scope.

(** ** Python values and exceptions *)

(** The subclasses of [Exception] the code can meet.  Every [except
    Exception] of the source catches all of them. *)
Inductive exn : Set :=
| CalledProcessError | FileNotFoundError | OSError | UnicodeDecodeError
| JSONDecodeError | AttributeError | TypeError | ValueError | OverflowError
| MemoryError.

Inductive res (A : Type) : Type :=
| Ok (a : A)
| Raise (e : exn).
Arguments Ok {A} a.
Arguments Raise {A} e.

Definition bind {A B} (m : res A) (k : A -> res B) : res B :=
  match m with
  | Ok a => k a
  | Raise e => Raise e
  end.

Notation "'do' x <- m ; k" := (bind m (fun x => k))
  (at level 10, x name, m at level 100, k at level 200).

(** A Python float: finite (a rational), an infinity, or NaN. *)
Inductive pyfloat : Set :=
| FFinite (q : QArith_base.Q)
| FInf (negative : bool)
| FNan.

(** What [json.loads] returns.  [JObj] holds the items of a dict, in
    insertion order. *)
Inductive json : Type :=
| JNull
| JBool (b : bool)
| JInt (n : Z)
| JFloat (f : pyfloat)
| JStr (s : string)
| JArr (l : list json)
| JObj (kv : list (string * json)).

Fixpoint assoc (k : string) (kv : list (string * json)) : option json :=
  match kv with
  | [] => None
  | (k', v) :: kv' => if String.eqb k k' then Some v else assoc k kv'
  end.

(** [v.get(k, d)]: only a dict has [get]. *)
Definition py_get (v : json) (k : string) (d : json) : res json :=
  match v with
  | JObj kv => Ok (default d (assoc k kv))
  | _ => Raise AttributeError
  end.

Fixpoint chars (s : string) : list json :=
  match s with
  | EmptyString => []
  | String c s' => JStr (String c EmptyString) :: chars s'
  end.

(** The items a [for] loop visits: the elements of a list, the keys of a
    dict, the characters of a string; nothing else is iterable. *)
Definition py_iter (v : json) : res (list json) :=
  match v with
  | JArr l => Ok l
  | JObj kv => Ok (map (fun p => JStr (fst p)) kv)
  | JStr s => Ok (chars s)
  | _ => Raise TypeError
  end.

(** [v == s] for a string literal [s]. *)
Definition py_eq_str (v : json) (s : string) : bool :=
  match v with
  | JStr t => String.eqb t s
  | _ => false
  end.

(** [v is not None] *)
Definition is_not_None (v : json) : bool :=
  match v with
  | JNull => false
  | _ => true
  end.

Definition float_trunc (q : QArith_base.Q) : Z :=
  Z.quot (QArith_base.Qnum q) (Z.pos (QArith_base.Qden q)).

(** ** Stream prober: [get_highest_res_stream_index] *)

(** The outside of the prober: running the probe tool and decoding its
    output ([subprocess.check_output(...).decode()]), the JSON parser, and
    [int] on a string. *)
Class Outside : Type := {
  check_output : list string -> res string;
  json_loads : string -> res json;
  int_of_str : string -> res Z
}.

Section Prober.

Context `{Outside}.

(** [int(v)] *)
Definition py_int (v : json) : res Z :=
  match v with
  | JInt n => Ok n
  | JBool b => Ok (if b then 1 else 0)
  | JFloat (FFinite q) => Ok (float_trunc q)
  | JFloat (FInf _) => Raise OverflowError
  | JFloat FNan => Raise ValueError
  | JStr s => int_of_str s
  | JNull | JArr _ | JObj _ => Raise TypeError
  end.

Definition probe_cmd (url : string) : list string :=
  ["ffprobe"; "-v"; "error"; "-show_streams"; "-select_streams"; "v";
   "-of"; "json"; url]%string.

Record best : Type := mkBest {
  best_idx : json;
  best_area : Z;
  best_w : json;
  best_h : json
}.

Definition best_init : best :=
  {| best_idx := JNull; best_area := 0; best_w := JInt 0; best_h := JInt 0 |}.

(** One turn of the [for stream in ...] loop, lines 25-37. *)
Definition scan_stream (b : best) (stream : json) : res best :=
  do ct <- py_get stream "codec_type" JNull ;
  if py_eq_str ct "video" then
    do w <- py_get stream "width" (JInt 0) ;
    do h <- py_get stream "height" (JInt 0) ;
    do idx <- py_get stream "index" JNull ;
    match (do iw <- py_int w ; do ih <- py_int h ; Ok (iw * ih)) with
    | Ok area =>
        if best_area b <? area
        then Ok {| best_idx := idx; best_area := area; best_w := w; best_h := h |}
        else Ok b
    | Raise _ => Ok b
    end
  else Ok b.

Fixpoint scan_streams (b : best) (l : list json) : res best :=
  match l with
  | [] => Ok b
  | stream :: l' => do b' <- scan_stream b stream ; scan_streams b' l'
  end.

Definition default_descriptor : json * json * json :=
  (JInt 0, JInt 640, JInt 360).

(** The body of the [try], lines 17-43. *)
Definition probe_body (url : string) : res (json * json * json) :=
  do out <- check_output (probe_cmd url) ;
  do info <- json_loads out ;
  do streams <- py_get info "streams" (JArr []) ;
  do l <- py_iter streams ;
  do b <- scan_streams best_init l ;
  if is_not_None (best_idx b)
  then Ok (best_idx b, best_w b, best_h b)
  else Ok default_descriptor.

Definition get_highest_res_stream_index (url : string) : json * json * json :=
  match probe_body url with
  | Ok d => d
  | Raise _ => default_descriptor
  end.

(** *** Vocabulary for the statements about the prober *)

Definition is_video (s : json) : bool :=
  match s with
  | JObj kv => py_eq_str (default JNull (assoc "codec_type" kv)) "video"
  | _ => false
  end.

Definition field (s : json) (k : string) (d : json) : json :=
  match s with
  | JObj kv => default d (assoc k kv)
  | _ => d
  end.

Definition stream_width (s : json) : json := field s "width" (JInt 0).
Definition stream_height (s : json) : json := field s "height" (JInt 0).
Definition stream_index (s : json) : json := field s "index" JNull.

(** [int(w) * int(h)] of a stream, when both conversions succeed. *)
Definition stream_area (s : json) : option Z :=
  match py_int (stream_width s), py_int (stream_height s) with
  | Ok iw, Ok ih => Some (iw * ih)
  | _, _ => None
  end.

(** The streams the probe output lists, when it is an object whose
    ["streams"] entry can be iterated. *)
Definition listed_streams (info : json) : list json :=
  match (do streams <- py_get info "streams" (JArr []) ; py_iter streams) with
  | Ok l => l
  | Raise _ => []
  end.

(** The three ways probing fails. *)
Inductive probe_failure (url : string) : Prop :=
| tool_error e :
    check_output (probe_cmd url) = Raise e -> probe_failure url
| parse_error out e :
    check_output (probe_cmd url) = Ok out ->
    json_loads out = Raise e -> probe_failure url
| no_video_track out info :
    check_output (probe_cmd url) = Ok out ->
    json_loads out = Ok info ->
    (forall s, In s (listed_streams info) -> is_video s = false) ->
    probe_failure url.

(** The probe output is an object whose ["streams"] entry is the list [l]
    (an absent entry reads as the empty list). *)
Definition lists_streams (info : json) (l : list json) : Prop :=
  exists kv, info = JObj kv /\ default (JArr []) (assoc "streams" kv) = JArr l.

(** What the prober returns when it selects the stream [s]. *)
Definition selected (s : json) : json * json * json :=
  (stream_index s, stream_width s, stream_height s).

(** The stream at position [i] has the largest area of all video streams,
    that area is positive, and every earlier video stream has a strictly
    smaller one. *)
Definition first_largest (l : list json) (i : nat) (s : json) : Prop :=
  l !! i = Some s /\ is_video s = true /\
  exists a, stream_area s = Some a /\ 0 < a /\
    forall j s' a', l !! j = Some s' -> is_video s' = true ->
      stream_area s' = Some a' -> a' <= a /\ ((j < i)%nat -> a' < a).



(** The accumulator of the scan after it has recorded the stream [s] of
    area [a]. *)
Definition picked (s : json) (a : Z) : best :=
  {| best_idx := stream_index s; best_area := a;
     best_w := stream_width s; best_h := stream_height s |}.

End Prober.

(** ** Frame buffer: [queue.Queue(maxsize=30)] *)

(** The array [np.frombuffer(raw, np.uint8).reshape((height, width, 3))]. *)
Record frame : Set := mkFrame {
  f_height : Z;
  f_width : Z;
  f_data : list byte
}.

Record Queue : Set := mkQueue {
  maxsize : Z;
  items : list frame
}.

Definition qsize (q : Queue) : Z := Z.of_nat (length (items q)).

(** [Queue.full()]: a [maxsize] of zero or less means no bound. *)
Definition full (q : Queue) : bool :=
  (0 <? maxsize q) && (maxsize q <=? qsize q).

(** [Queue.put(x)], blocking and without timeout: [None] while the caller
    has to wait. *)
Definition put (x : frame) (q : Queue) : option Queue :=
  if full q then None
  else Some {| maxsize := maxsize q; items := items q ++ [x] |}.

(** [Queue.get(timeout=5)]: [None] stands for [queue.Empty]. *)
Definition get (q : Queue) : option (frame * Queue) :=
  match items q with
  | [] => None
  | x :: rest => Some (x, {| maxsize := maxsize q; items := rest |})
  end.

Fixpoint put_all (fs : list frame) (q : Queue) : option Queue :=
  match fs with
  | [] => Some q
  | f :: fs' =>
      match put f q with
      | Some q' => put_all fs' q'
      | None => None
      end
  end.

Fixpoint get_n (n : nat) (q : Queue) : option (list frame * Queue) :=
  match n with
  | O => Some ([], q)
  | S n' =>
      match get q with
      | Some (f, q') =>
          match get_n n' q' with
          | Some (fs, q'') => Some (f :: fs, q'')
          | None => None
          end
      | None => None
      end
  end.

(** ** Decoder command: [build_ffmpeg_cmd] *)

(** What [get_highest_res_stream_index] hands to [build_ffmpeg_cmd]: stream
    index, width and height, as integers. *)
Definition descriptor : Set := (Z * Z * Z)%type.

Record Args : Set := mkArgs {
  url : string;
  no_preview : bool;
  force_cpu : bool;
  arg_width : option Z;
  arg_height : option Z
}.

(** Truth value of an optional integer argument: [None] and [0] are false. *)
Definition truthy (o : option Z) : bool :=
  match o with
  | Some n => negb (n =? 0)
  | None => false
  end.

(** [str(n)], as an f-string writes an integer. *)
Definition str_of_int (n : Z) : string :=
  NilZero.string_of_int (Z.to_int n).

Definition build_ffmpeg_cmd (url : string) (use_gpu : bool)
    (width height : option Z) (probed : descriptor) : list string * Z * Z :=
  let '(stream_idx, stream_w, stream_h) := probed in
  let out_w := if truthy width then default 0 width else stream_w in
  let out_h := if truthy height then default 0 height else stream_h in
  let cmd :=
    if use_gpu then
      ["ffmpeg"; "-hide_banner"; "-loglevel"; "info";
       "-hwaccel"; "cuda"; "-hwaccel_output_format"; "cuda";
       "-i"; url; "-map"; "0:" +:+ str_of_int stream_idx;
       "-an"; "-f"; "rawvideo"; "-pix_fmt"; "bgr24"]%string
    else
      ["ffmpeg"; "-hide_banner"; "-loglevel"; "info";
       "-fflags"; "+genpts";
       "-i"; url; "-map"; "0:" +:+ str_of_int stream_idx;
       "-an"; "-f"; "rawvideo"; "-pix_fmt"; "bgr24"]%string in
  let cmd :=
    if negb (out_w =? 0) && negb (out_h =? 0)
    then cmd ++ ["-vf"; "scale=" +:+ str_of_int out_w +:+ ":" +:+ str_of_int out_h]%string
    else cmd in
  (cmd ++ ["-"%string], out_w, out_h).

(** ** The decode process and its pipe *)

(** A process started by [subprocess.Popen]: its command, the bytes it
    still writes to its standard output before closing it, and whether
    [kill()] was called on its handle. *)
Record proc : Set := mkProc {
  p_cmd : list string;
  p_out : list byte;
  p_killed : bool
}.

(** The machine the program runs on, as far as the reader sees it: the
    size of the largest byte string a [read] can allocate there. *)
Class Machine : Type := {
  alloc_max : N
}.

(** The largest byte string of 64-bit CPython, whatever the machine:
    [sys.maxsize] less the 33 bytes of the object's header and its
    terminating zero. *)
Definition bytes_max : Z := 2 ^ 63 - 34.

(** [proc.stdout.read(n)] on the buffered pipe.  [ValueError] for a size
    below [-1]; everything up to end of file for [-1].  Otherwise the
    result is allocated at its full size [n] before any byte is read:
    [OverflowError] for a size no byte string can have, [MemoryError] for
    one this machine cannot allocate; else [n] bytes, or what is left
    before end of file.  Returns the bytes read and the bytes left. *)
Definition pipe_read `{Machine} (n : Z) (out : list byte) : res (list byte * list byte) :=
  if n <? -1 then Raise ValueError
  else if n =? -1 then Ok (out, [])
  else if bytes_max <? n then Raise OverflowError
  else if Z.of_N alloc_max <? n then Raise MemoryError
  else Ok (take (Z.to_nat n) out, drop (Z.to_nat n) out).

(** The sizes [read] returns bytes for. *)
Definition readable `{Machine} (n : Z) : bool :=
  (0 <=? n) && (n <=? bytes_max) && (n <=? Z.of_N alloc_max).

(** The machine on which the concrete runs of the examples are computed:
    it can allocate 16 GiB at once. *)
#[global] Instance workstation : Machine := {| alloc_max := 2 ^ 34 |}%N.

(** [np.frombuffer(raw, np.uint8).reshape((height, width, 3))] where the
    reader can reach it ([height * width * 3 >= 0], or [read] has raised):
    the sizes must agree and no dimension may be negative. *)
Definition reshape (raw : list byte) (height width : Z) : option frame :=
  if (0 <=? height) && (0 <=? width)
     && (Z.of_nat (length raw) =? height * width * 3)
  then Some {| f_height := height; f_width := width; f_data := raw |}
  else None.

Definition kill (pid : nat) (ps : list proc) : list proc :=
  match ps !! pid with
  | Some p =>
      <[pid := {| p_cmd := p_cmd p; p_out := p_out p; p_killed := true |}]> ps
  | None => ps
  end.

(** ** The two threads *)

(** Where [main] stands. *)
Inductive main_pc : Set :=
| CStart                  (* line 153, top of [while True] *)
| CConsume                (* lines 161-180, one turn of the consume loop *)
| CFinally (broke : bool) (* line 186; [broke]: the [except] clause ran [break] *)
| CJoin (broke : bool)    (* line 187, [reader_thread.join()] *)
| CAfter                  (* line 191, the fallback test *)
| CExit.                  (* [main] has returned *)

(** Where [frame_reader] stands. *)
Inductive reader_pc : Set :=
| RTop                        (* line 112 *)
| RInner (pid : nat)          (* line 117 *)
| RPut (pid : nat) (f : frame) (* line 128 *)
| RKill (pid : nat)           (* line 130 *)
| RDone.                      (* [frame_reader] has returned *)

(** The reader thread with the arguments it was started with. *)
Record reader_thread : Set := mkReader {
  r_cmd : list string;
  r_width : Z;
  r_height : Z;
  r_pc : reader_pc
}.

Record sys : Set := mkSys {
  args : Args;
  use_gpu : bool;
  tried_gpu : bool;
  pc : main_pc;
  stop_event : bool;
  frame_queue : Queue;
  reader : option reader_thread;
  procs : list proc
}.

(** What a step does, for the statements about runs. *)
Inductive label : Set :=
| LProbe (d : descriptor)
| LStart (gpu : bool) (cmd : list string) (w h : Z)
| LEmpty
| LGet (f : frame)
| LShow (f : frame)
| LQuit
| LInterrupt
| LSetStop
| LClearStop
| LJoin
| LDestroyWindows
| LFallback
| LExit
| LPopen (pid : nat) (cmd : list string)
| LPopenFail (e : exn)
| LRead (pid : nat) (raw : list byte)
| LReadFail (pid : nat) (e : exn)
| LReshapeFail (pid : nat)
| LPut (f : frame)
| LKill (pid : nat)
| LSleep (seconds : Z)
| LReaderExit.

(** What the outside contributes to a step of [main]. *)
Inductive main_input : Set :=
| MProbe (d : descriptor) (* the prober's answer at this call *)
| MTimeout                (* [get] waited five seconds in vain *)
| MFrame (key : Z)        (* a frame arrives; [cv2.waitKey(1)] gives [key] *)
| MInterrupt              (* [KeyboardInterrupt] inside the [try] *)
| MGo.

(** What the outside contributes to a step of [frame_reader]. *)
Inductive reader_input : Set :=
| RPopen (r : res (list byte)) (* [Popen] fails, or starts a process with this output *)
| RFault (e : exn)             (* [read] raises *)
| RGo.

Definition init (gpu_available : bool) (a : Args) : sys :=
  {| args := a;
     use_gpu := gpu_available && negb (force_cpu a);
     tried_gpu := false;
     pc := CStart;
     stop_event := false;
     frame_queue := {| maxsize := 30; items := [] |};
     reader := None;
     procs := [] |}.

Definition set_pc (s : sys) (c : main_pc) : sys :=
  {| args := args s; use_gpu := use_gpu s; tried_gpu := tried_gpu s;
     pc := c; stop_event := stop_event s; frame_queue := frame_queue s;
     reader := reader s; procs := procs s |}.

Definition set_stop (s : sys) (b : bool) : sys :=
  {| args := args s; use_gpu := use_gpu s; tried_gpu := tried_gpu s;
     pc := pc s; stop_event := b; frame_queue := frame_queue s;
     reader := reader s; procs := procs s |}.

Definition set_queue (s : sys) (q : Queue) : sys :=
  {| args := args s; use_gpu := use_gpu s; tried_gpu := tried_gpu s;
     pc := pc s; stop_event := stop_event s; frame_queue := q;
     reader := reader s; procs := procs s |}.

Definition set_reader (s : sys) (r : reader_thread) : sys :=
  {| args := args s; use_gpu := use_gpu s; tried_gpu := tried_gpu s;
     pc := pc s; stop_event := stop_event s; frame_queue := frame_queue s;
     reader := Some r; procs := procs s |}.

Definition set_procs (s : sys) (ps : list proc) : sys :=
  {| args := args s; use_gpu := use_gpu s; tried_gpu := tried_gpu s;
     pc := pc s; stop_event := stop_event s; frame_queue := frame_queue s;
     reader := reader s; procs := ps |}.

Definition set_mode (s : sys) (gpu tried : bool) : sys :=
  {| args := args s; use_gpu := gpu; tried_gpu := tried;
     pc := pc s; stop_event := stop_event s; frame_queue := frame_queue s;
     reader := reader s; procs := procs s |}.

Definition at_pc (r : reader_thread) (c : reader_pc) : reader_thread :=
  {| r_cmd := r_cmd r; r_width := r_width r; r_height := r_height r; r_pc := c |}.

(** [reader_thread.join()] returns once [frame_reader] has. *)
Definition reader_done (s : sys) : bool :=
  match reader s with
  | Some r => match r_pc r with RDone => true | _ => false end
  | None => false
  end.

(** [cv2.waitKey(1) & 0xFF == ord('q')] *)
Definition is_quit (key : Z) : bool := Z.land key 255 =? 113.

(** One step of [main], lines 151-197.  [None]: the input does not fit the
    place, or [main] is blocked. *)
Definition main_step (i : main_input) (s : sys) : option (list label * sys) :=
  match pc s, i with
  | CStart, MProbe d =>
      let '(cmd, width, height) :=
        build_ffmpeg_cmd (url (args s)) (use_gpu s)
          (arg_width (args s)) (arg_height (args s)) d in
      Some ([LProbe d; LStart (use_gpu s) cmd width height],
            set_pc (set_reader s {| r_cmd := cmd; r_width := width;
                                    r_height := height; r_pc := RTop |})
                   CConsume)
  | CConsume, MInterrupt =>
      Some ([LInterrupt; LSetStop], set_pc (set_stop s true) (CFinally true))
  | CConsume, MGo =>
      if stop_event s then Some ([], set_pc s (CFinally false)) else None
  | CConsume, MTimeout =>
      if stop_event s then None
      else match get (frame_queue s) with
           | None => Some ([LEmpty], s)
           | Some _ => None
           end
  | CConsume, MFrame key =>
      if stop_event s then None
      else match get (frame_queue s) with
           | None => None
           | Some (f, q) =>
               if no_preview (args s) then Some ([LGet f], set_queue s q)
               else if is_quit key
               then Some ([LGet f; LShow f; LQuit; LSetStop],
                          set_pc (set_stop (set_queue s q) true) (CFinally false))
               else Some ([LGet f; LShow f], set_queue s q)
           end
  | CFinally broke, MGo =>
      Some ([LSetStop], set_pc (set_stop s true) (CJoin broke))
  | CJoin broke, MGo =>
      if reader_done s
      then Some (LJoin :: (if no_preview (args s) then [] else [LDestroyWindows]),
                 set_pc s (if broke then CExit else CAfter))
      else None
  | CAfter, MGo =>
      if use_gpu s && negb (tried_gpu s)
      then Some ([LFallback; LClearStop],
                 set_pc (set_stop (set_mode s false true) false) CStart)
      else Some ([LExit], set_pc s CExit)
  | _, _ => None
  end.

(** One step of [frame_reader] for the thread [r], lines 111-134. *)
Definition reader_step `{Machine} (i : reader_input) (s : sys) : option (list label * sys) :=
  match reader s with
  | None => None
  | Some r =>
      match r_pc r, i with
      | RTop, RGo =>
          if stop_event s then Some ([LReaderExit], set_reader s (at_pc r RDone))
          else None
      | RTop, RPopen (Raise e) =>
          if stop_event s then None
          else Some ([LPopenFail e; LSleep 2], s)
      | RTop, RPopen (Ok out) =>
          if stop_event s then None
          else
            let pid := length (procs s) in
            Some ([LPopen pid (r_cmd r)],
                  set_reader
                    (set_procs s (procs s ++ [{| p_cmd := r_cmd r; p_out := out;
                                                 p_killed := false |}]))
                    (at_pc r (RInner pid)))
      | RInner pid, RFault e =>
          if stop_event s then None
          else Some ([LReadFail pid e; LSleep 2], set_reader s (at_pc r RTop))
      | RInner pid, RGo =>
          if stop_event s then Some ([], set_reader s (at_pc r (RKill pid)))
          else
            match procs s !! pid with
            | None => None
            | Some p =>
                let frame_size := r_width r * r_height r * 3 in
                match pipe_read frame_size (p_out p) with
                | Raise e =>
                    Some ([LReadFail pid e; LSleep 2], set_reader s (at_pc r RTop))
                | Ok (raw, rest) =>
                    let s' := set_procs s
                      (<[pid := {| p_cmd := p_cmd p; p_out := rest;
                                   p_killed := p_killed p |}]> (procs s)) in
                    if (Z.of_nat (length raw) =? 0)
                       || (Z.of_nat (length raw) <? frame_size)
                    then Some ([LRead pid raw], set_reader s' (at_pc r (RKill pid)))
                    else
                      match reshape raw (r_height r) (r_width r) with
                      | None =>
                          Some ([LRead pid raw; LReshapeFail pid],
                                set_reader s' (at_pc r (RInner pid)))
                      | Some f =>
                          Some ([LRead pid raw], set_reader s' (at_pc r (RPut pid f)))
                      end
                end
            end
      | RPut pid f, RGo =>
          match put f (frame_queue s) with
          | None => None
          | Some q => Some ([LPut f], set_reader (set_queue s q) (at_pc r (RInner pid)))
          end
      | RKill pid, RGo =>
          Some ([LKill pid; LSleep 1],
                set_reader (set_procs s (kill pid (procs s))) (at_pc r RTop))
      | _, _ => None
      end
  end.

(** The scheduler picks a thread; the outside supplies its input. *)
Inductive choice : Set :=
| Main (i : main_input)
| Reader (i : reader_input).

Definition step `{Machine} (c : choice) (s : sys) : option (list label * sys) :=
  match c with
  | Main i => main_step i s
  | Reader i => reader_step i s
  end.

(** A run: the steps of a schedule one after the other, with what they do. *)
Fixpoint run `{Machine} (cs : list choice) (s : sys) : option (list label * sys) :=
  match cs with
  | [] => Some ([], s)
  | c :: cs' =>
      match step c s with
      | None => None
      | Some (l, s') =>
          match run cs' s' with
          | None => None
          | Some (tr, s'') => Some (l ++ tr, s'')
          end
      end
  end.

(** The state a schedule leads to. *)
Definition state_after `{Machine} (cs : list choice) (s : sys) : sys :=
  match run cs s with
  | Some (_, s') => s'
  | None => s
  end.

(** What a schedule does. *)
Definition trace_after `{Machine} (cs : list choice) (s : sys) : list label :=
  match run cs s with
  | Some (tr, _) => tr
  | None => []
  end.

Definition reachable_from `{Machine} (s0 s : sys) : Prop :=
  exists cs tr, run cs s0 = Some (tr, s).

Definition reachable `{Machine} (s : sys) : Prop :=
  exists g a, reachable_from (init g a) s.

(** ** Vocabulary for the statements about runs *)

Definition count (p : label -> bool) (tr : list label) : nat :=
  length (List.filter p tr).

Definition is_fallback (l : label) : bool :=
  match l with LFallback => true | _ => false end.

Definition is_start (l : label) : bool :=
  match l with LStart _ _ _ _ => true | _ => false end.

Definition is_probe (l : label) : bool :=
  match l with LProbe _ => true | _ => false end.

Definition is_popen (l : label) : bool :=
  match l with LPopen _ _ => true | _ => false end.

Definition is_clear (l : label) : bool :=
  match l with LClearStop => true | _ => false end.

(** The frames put into, and taken from, the buffer, in order. *)
Fixpoint puts (tr : list label) : list frame :=
  match tr with
  | [] => []
  | LPut f :: tr' => f :: puts tr'
  | _ :: tr' => puts tr'
  end.

Fixpoint gets (tr : list label) : list frame :=
  match tr with
  | [] => []
  | LGet f :: tr' => f :: gets tr'
  | _ :: tr' => gets tr'
  end.




(** [main] stands before line 153: the pipeline is yet to be started. *)
Definition at_start (s : sys) : bool :=
  match pc s with CStart => true | _ => false end.







(** Arguments of a run with preview, nothing forced. *)
Definition a_hw : Args :=
  {| url := "u"; no_preview := false; force_cpu := false;
     arg_width := None; arg_height := None |}.

Definition six_bytes : list byte := [x00; x01; x02; x03; x04; x05].

(** A run in hardware mode up to the consume loop with a frame waiting:
    the probe answers 2x1, the decoder writes two frames, both are put. *)
Definition two_frames_buffered : list choice :=
  [Main (MProbe (0, 2, 1)); Reader (RPopen (Ok (six_bytes ++ six_bytes)));
   Reader RGo; Reader RGo; Reader RGo; Reader RGo].

(** ... then the first frame is shown and the key [q] pressed. *)
Definition quit_in_hardware_mode : list choice :=
  two_frames_buffered ++ [Main (MFrame 113)].


(** The teardown while the reader is inside a session: [finally], the
    reader sees the event, kills the process and returns, [main] joins. *)
Definition teardown : list choice :=
  [Main MGo; Reader RGo; Reader RGo; Reader RGo; Main MGo].

(** The teardown and the test of line 191. *)
Definition teardown_with_reader_in_session : list choice :=
  teardown ++ [Main MGo].



(** The sentence about the shutdown signal as the specification words it:
    once set, no step unsets it. *)
Definition shutdown_never_cleared `{Machine} : Prop :=
  forall g a cs tr s c l s',
    run cs (init g a) = Some (tr, s) -> stop_event s = true ->
    step c s = Some (l, s') -> stop_event s' = true.

(** The sentence about the descriptor as the specification words it: every
    launch of a decode process, relaunches included, has a probe of its
    own. *)
Definition probe_before_every_launch `{Machine} : Prop :=
  forall g a cs tr s,
    run cs (init g a) = Some (tr, s) ->
    (count is_popen tr <= count is_probe tr)%nat.

(** One probe, a session that ends on a short read, and the relaunch. *)
Definition two_sessions : list choice :=
  [Main (MProbe (0, 2, 1)); Reader (RPopen (Ok [x00]));
   Reader RGo; Reader RGo; Reader (RPopen (Ok [x00]))].

(** The sentence about [put] under shutdown as the specification words it:
    with the signal set, [put] returns at once and enqueues nothing. *)
Definition put_yields_to_shutdown `{Machine} : Prop :=
  forall g a cs tr s r pid f,
    run cs (init g a) = Some (tr, s) ->
    reader s = Some r -> r_pc r = RPut pid f -> stop_event s = true ->
    exists l s', reader_step RGo s = Some (l, s') /\
                 frame_queue s' = frame_queue s.

(** The reader has read a frame and stands at [put] when the interrupt
    arrives. *)
Definition interrupt_before_put : list choice :=
  [Main (MProbe (0, 2, 1)); Reader (RPopen (Ok six_bytes)); Reader RGo;
   Main MInterrupt].

Definition frame0 : frame :=
  {| f_height := 1; f_width := 2; f_data := six_bytes |}.

(** The frame holds exactly [width * height * 3] bytes, and they are the
    bytes one [read] returned. *)
Definition whole_frame (tr : list label) (f : frame) : Prop :=
  Z.of_nat (length (f_data f)) = f_width f * f_height f * 3 /\
  exists pid, In (LRead pid (f_data f)) tr.

(** Arguments that force software decoding at [--width -2 --height 1]. *)
Definition a_neg : Args :=
  {| url := "u"; no_preview := true; force_cpu := true;
     arg_width := Some (-2); arg_height := Some 1 |}.

(** With those arguments: the decoder starts, [read(-6)] raises, and the
    interrupted [main] joins the reader and returns. *)
Definition read_error_run : list choice :=
  [Main (MProbe (0, 640, 360)); Reader (RPopen (Ok six_bytes)); Reader RGo;
   Main MInterrupt; Main MGo; Reader RGo; Main MGo].

Definition is_read_fail (l : label) : bool :=
  match l with LReadFail _ _ => true | _ => false end.

(** The process of the session the reader is in, if it is in one. *)
Definition session_pid (c : reader_pc) : option nat :=
  match c with
  | RInner pid | RPut pid _ | RKill pid => Some pid
  | RTop | RDone => None
  end.

Definition in_session (s : sys) (pid : nat) : Prop :=
  exists r, reader s = Some r /\ session_pid (r_pc r) = Some pid.

(** Every process but the one of the session in progress has been killed. *)
Definition no_leak (s : sys) : Prop :=
  forall i p, procs s !! i = Some p -> p_killed p = true \/ in_session s i.

(** No reader thread is running: none was started, or it has returned. *)
Definition joined (s : sys) : Prop :=
  match reader s with
  | None => True
  | Some r => r_pc r = RDone
  end.

(** [main] is where no reader thread may run: before a start of the
    pipeline, at the fallback test, or after its return. *)
Definition between_pipelines (s : sys) : bool :=
  match pc s with
  | CStart | CAfter | CExit => true
  | _ => false
  end.

(** A probe tool that fails. *)
Definition outside_failing : Outside :=
  {| check_output := fun _ => Raise CalledProcessError;
     json_loads := fun _ => Raise JSONDecodeError;
     int_of_str := fun _ => Raise ValueError |}.

Definition video_stream (index width height : Z) : json :=
  JObj [("index", JInt index); ("codec_type", JStr "video");
        ("width", JInt width); ("height", JInt height)]%string.



(** ** Further vocabulary *)

(** The entry is a JSON object (a Python dict). *)
Definition is_object (s : json) : bool :=
  match s with
  | JObj _ => true
  | _ => false
  end.

(** A probe output whose stream list holds a number after a video stream. *)
Definition malformed_streams : list json :=
  [video_stream 0 640 360; JInt 7].

Definition outside_malformed : Outside :=
  {| check_output := fun _ => Ok "{...}"%string;
     json_loads := fun _ => Ok (JObj [("streams"%string, JArr malformed_streams)]);
     int_of_str := fun _ => Raise ValueError |}.

(** A probe output whose largest video stream has no index. *)
Definition unindexed_stream : json :=
  JObj [("codec_type", JStr "video"); ("width", JInt 1920);
        ("height", JInt 1080)]%string.

Definition unindexed_streams : list json :=
  [video_stream 0 640 360; unindexed_stream].

Definition outside_unindexed : Outside :=
  {| check_output := fun _ => Ok "{...}"%string;
     json_loads := fun _ => Ok (JObj [("streams"%string, JArr unindexed_streams)]);
     int_of_str := fun _ => Raise ValueError |}.

(** [main] is outside every teardown: before line 153 or in the consume
    loop. *)
Definition in_loop (s : sys) : bool :=
  match pc s with
  | CStart | CConsume => true
  | _ => false
  end.

(** The reader stands between two sessions, or has returned. *)
Definition between_sessions (s : sys) : Prop :=
  forall r, reader s = Some r -> session_pid (r_pc r) = None.

(** Headless arguments: no preview window, hence no quit key. *)
Definition a_headless : Args :=
  {| url := "u"; no_preview := true; force_cpu := false;
     arg_width := None; arg_height := None |}.

(** A headless run in hardware mode: two frames are consumed, then the
    interrupt ends the program. *)
Definition headless_run : list choice :=
  two_frames_buffered ++ [Main (MFrame 113); Main (MFrame 113); Main MInterrupt]
  ++ teardown.

(** The teardown was entered without [break] in the [except] clause. *)
Definition left_without_break (s : sys) : bool :=
  match pc s with
  | CFinally false | CJoin false | CAfter => true
  | _ => false
  end.

(** Preview on, software decoding forced. *)
Definition a_cpu : Args :=
  {| url := "u"; no_preview := false; force_cpu := true;
     arg_width := None; arg_height := None |}.



(** ... and [main] goes to the join. *)
Definition full_buffer_shutdown : list choice :=
  [Main (MProbe (0, 2, 1));
   Reader (RPopen (Ok (concat (repeat six_bytes 31))))]
  ++ concat (repeat [Reader RGo; Reader RGo] 30)
  ++ [Reader RGo; Main MInterrupt; Main MGo].

(** The reader's steps through a session of [k] whole frames: [k] times a
    read and a put, then the read that ends the session and the kill. *)
Definition session_schedule (k : nat) : list choice :=
  concat (repeat [Reader RGo; Reader RGo] k) ++ [Reader RGo; Reader RGo].

(** The frames made of the given chunks of bytes. *)
Definition frames_of (height width : Z) (chunks : list (list byte)) : list frame :=
  map (fun c => {| f_height := height; f_width := width; f_data := c |}) chunks.

(** The buffer has room for [k] more frames. *)
Definition has_room (q : Queue) (k : nat) : Prop :=
  maxsize q <= 0 \/ Z.of_nat (length (items q) + k) <= maxsize q.

(** The decoder has just been started and writes two frames and one byte. *)
Definition session_start : list choice :=
  [Main (MProbe (0, 2, 1));
   Reader (RPopen (Ok (concat [six_bytes; six_bytes] ++ [x00])))].

(** ** Video information: [get_video_info] *)

(** [s.split(sep)] for a separator of one character. *)
Fixpoint split_on (sep : Ascii.ascii) (s : string) : list string :=
  match s with
  | EmptyString => [EmptyString]
  | String c s' =>
      if Ascii.eqb c sep then EmptyString :: split_on sep s'
      else match split_on sep s' with
           | x :: xs => String c x :: xs
           | [] => [String c EmptyString]
           end
  end.

(** The character [/]. *)
Definition slash : Ascii.ascii := Ascii.ascii_of_nat 47.

(** The frame rate [get_video_info] returns: the integer 30, or the float
    quotient [num / denom] of a rate line with a nonzero denominator. *)
Inductive rate : Set :=
| Rate30
| RateQuot (num denom : Z).

(** [num / denom] on two Python integers, [denom] not zero, is the float
    nearest to the quotient, and raises [OverflowError] where that float
    would be beyond the largest one, [2^1024 - 2^971]: from the midpoint
    [2^1024 - 2^970] between it and [2^1024] on, in absolute value. *)
Definition float_overflow : Z := 2 ^ 1024 - 2 ^ 970.

Definition quotient_overflows (num denom : Z) : bool :=
  float_overflow * Z.abs denom <=? Z.abs num.

Definition info_cmd (url : string) : list string :=
  ["ffprobe"; "-v"; "error"; "-select_streams"; "v:0";
   "-show_entries"; "stream=width,height,r_frame_rate";
   "-of"; "default=noprint_wrappers=1:nokey=1"; url]%string.

(** The outcome of code inside a [try] whose handler catches every
    exception alike: the value, or nothing. *)
Definition caught {A} (r : res A) : option A :=
  match r with
  | Ok a => Some a
  | Raise _ => None
  end.

Section VideoInfo.

Context `{Outside}.

(** [str.splitlines] on the decoded output of the probe tool. *)
Variable splitlines : string -> list string.

(** The body of the [try], lines 102-106; [None] where it raises. *)
Definition video_info_body (url : string) : option (Z * Z * rate) :=
  out ← caught (check_output (info_cmd url));
  let lines := splitlines out in
  l0 ← lines !! 0%nat;
  width ← caught (int_of_str l0);
  l1 ← lines !! 1%nat;
  height ← caught (int_of_str l1);
  fps ← lines !! 2%nat;
  match split_on slash fps with
  | [n; d] =>
      num ← caught (int_of_str n);
      denom ← caught (int_of_str d);
      if denom =? 0 then Some (width, height, Rate30)
      else if quotient_overflows num denom then None
      else Some (width, height, RateQuot num denom)
  | _ => None
  end.

Definition get_video_info (url : string) : Z * Z * rate :=
  match video_info_body url with
  | Some r => r
  | None => (640, 360, Rate30)
  end.

End VideoInfo.

(** The numeral of [10^400], a number beyond the floats: a one and four
    hundred zeros. *)
Definition huge_numeral : string :=
  String (Ascii.ascii_of_nat 49)
    (string_of_list_ascii (repeat (Ascii.ascii_of_nat 48) 400)).

(** A probe tool that prints three lines; [int] reads the few numerals
    the examples need. *)
Definition outside_lines (rate_line : string) : Outside :=
  {| check_output := fun _ => Ok rate_line;
     json_loads := fun _ => Raise JSONDecodeError;
     int_of_str := fun s =>
       if String.eqb s "1280" then Ok 1280
       else if String.eqb s "720" then Ok 720
       else if String.eqb s "30000" then Ok 30000
       else if String.eqb s "1001" then Ok 1001
       else if String.eqb s "0" then Ok 0
       else if String.eqb s "1" then Ok 1
       else if String.eqb s huge_numeral then Ok (10 ^ 400)
       else Raise ValueError |}.

Definition three_lines (rate_line : string) : list string :=
  ["1280"; "720"; rate_line]%string.
(** * Theorems *)

Section ProberFacts.

Context `{Outside}.

Lemma scan_stream_not_video b s :
  is_video s = false ->
  scan_stream b s = Ok b \/ exists e, scan_stream b s = Raise e.
Proof.
  intros Hv. destruct s; simpl in *; try (right; eexists; reflexivity).
  unfold scan_stream; simpl. rewrite Hv. now left.
Qed.

Lemma scan_streams_no_video l : forall b,
  (forall s, In s l -> is_video s = false) ->
  scan_streams b l = Ok b \/ exists e, scan_streams b l = Raise e.
Proof.
  induction l as [|s l IH]; intros b Hl; simpl.
  - now left.
  - destruct (scan_stream_not_video b s) as [E|[e E]].
    + apply Hl. now left.
    + rewrite E; simpl. apply IH. intros s' Hs'. apply Hl. now right.
    + rewrite E; simpl. right. now exists e.
Qed.

(** C9.  When probing fails (the probe tool raises, its output does not
    parse, or it lists no video track), [get_highest_res_stream_index]
    returns the default descriptor (0, 640, 360); the function has no
    raising outcome at all. *)
Theorem probe_failure_gives_default url :
  probe_failure url ->
  get_highest_res_stream_index url = default_descriptor.
Proof.
  intros [e He | out e Ho He | out info Ho Hi Hnv];
    unfold get_highest_res_stream_index, probe_body.
  - now rewrite He.
  - rewrite Ho; simpl. now rewrite He.
  - rewrite Ho; simpl. rewrite Hi; simpl.
    unfold listed_streams in Hnv.
    destruct (py_get info "streams" (JArr [])) as [streams|e]; simpl in *; [|reflexivity].
    destruct (py_iter streams) as [l|e]; simpl in *; [|reflexivity].
    destruct (scan_streams_no_video l best_init Hnv) as [E|[e E]];
      rewrite E; reflexivity.
Qed.

(** One turn of the loop, for a stream that is an object: either the
    accumulator is kept, and then the stream is no video stream or its
    area is undefined or not above the best, or the stream is recorded. *)
Lemma scan_stream_obj b kv :
  (scan_stream b (JObj kv) = Ok b /\
     (is_video (JObj kv) = true ->
      forall a, stream_area (JObj kv) = Some a -> a <= best_area b))
  \/ (exists a, is_video (JObj kv) = true /\ stream_area (JObj kv) = Some a /\
        best_area b < a /\ scan_stream b (JObj kv) = Ok (picked (JObj kv) a)).
Proof.
  unfold scan_stream, stream_area, stream_width, stream_height, picked,
    stream_index, field; simpl.
  destruct (py_eq_str _ "video") eqn:Hv; simpl.
  2: { left. split; [reflexivity|]. intros Hv'. congruence. }
  destruct (py_int (default (JInt 0) (assoc "width" kv))) as [iw|e]; simpl.
  2: { left. split; [reflexivity|]. intros _ a Ha. discriminate. }
  destruct (py_int (default (JInt 0) (assoc "height" kv))) as [ih|e]; simpl.
  2: { left. split; [reflexivity|]. intros _ a Ha. discriminate. }
  destruct (best_area b <? iw * ih) eqn:Hlt.
  - right. exists (iw * ih). apply Z.ltb_lt in Hlt. auto.
  - left. split; [reflexivity|]. intros _ a Ha. apply Z.ltb_ge in Hlt.
    injection Ha as <-. exact Hlt.
Qed.



End ProberFacts.

Lemma probe_failure_gives_default_witness :
  @probe_failure outside_failing "u" /\
  @get_highest_res_stream_index outside_failing "u" = default_descriptor.
Proof.
  assert (Hf : @probe_failure outside_failing "u")
    by (apply (@tool_error outside_failing "u" CalledProcessError); reflexivity).
  split; [exact Hf|].
  exact (@probe_failure_gives_default outside_failing "u" Hf).
Defined.


(** ** Runs *)

Lemma run_app {mach : Machine} cs1 : forall cs2 s,
  run (cs1 ++ cs2) s =
  match run cs1 s with
  | Some (tr1, s1) =>
      match run cs2 s1 with
      | Some (tr2, s2) => Some (tr1 ++ tr2, s2)
      | None => None
      end
  | None => None
  end.
Proof.
  induction cs1 as [|c cs1 IH]; intros cs2 s; simpl.
  - destruct (run cs2 s) as [[tr2 s2]|]; reflexivity.
  - destruct (step c s) as [[l s']|]; [|reflexivity].
    rewrite IH. destruct (run cs1 s') as [[tr1 s1]|]; [|reflexivity].
    destruct (run cs2 s1) as [[tr2 s2]|]; [|reflexivity].
    now rewrite app_assoc.
Qed.

Lemma run_snoc {mach : Machine} cs c s tr s' :
  run (cs ++ [c]) s = Some (tr, s') ->
  exists tr1 s1 l, run cs s = Some (tr1, s1) /\ step c s1 = Some (l, s') /\
                   tr = tr1 ++ l.
Proof.
  rewrite run_app. destruct (run cs s) as [[tr1 s1]|]; [|discriminate].
  cbn [run]. destruct (step c s1) as [[l s2]|] eqn:Hs; [|discriminate].
  intros E. injection E as <- <-. exists tr1, s1, l.
  rewrite app_nil_r. auto.
Qed.

(** A property of trace and state that holds at the start and that every
    step keeps holds after every run. *)
Lemma run_invariant {mach : Machine} (I : list label -> sys -> Prop) s0 :
  I [] s0 ->
  (forall tr s c l s', I tr s -> step c s = Some (l, s') -> I (tr ++ l) s') ->
  forall cs tr s, run cs s0 = Some (tr, s) -> I tr s.
Proof.
  intros H0 Hstep cs. induction cs as [|c cs IH] using rev_ind; intros tr s Hrun.
  - simpl in Hrun. injection Hrun as <- <-. exact H0.
  - apply run_snoc in Hrun as (tr1 & s1 & l & Hrun & Hs & ->).
    eapply Hstep; eauto.
Qed.

Lemma count_app p tr1 tr2 : count p (tr1 ++ tr2) = (count p tr1 + count p tr2)%nat.
Proof. unfold count. rewrite List.filter_app. apply length_app. Qed.

(** Case analysis on one step: every transition of [main_step] and of
    [reader_step], with the target state computed. *)
Ltac split_step H :=
  repeat (cbv beta iota in H;
          match type of H with
          | context [match pc ?s with _ => _ end] => destruct (pc s) eqn:?
          | context [match reader ?s with _ => _ end] => destruct (reader s) eqn:?
          | context [match r_pc ?r with _ => _ end] => destruct (r_pc r) eqn:?
          | context [match stop_event ?s with _ => _ end] =>
              destruct (stop_event s) eqn:?
          | (match ?x with _ => _ end) = Some _ => destruct x eqn:?
          | (let '(_, _) := ?x in _) = Some _ => destruct x eqn:?
          | (if ?b then _ else _) = Some _ => destruct b eqn:?
          end);
  try discriminate H.

Ltac bool_norm :=
  repeat match goal with
         | H : _ && _ = true |- _ => apply andb_prop in H as [? ?]
         | H : negb _ = true |- _ => apply negb_true_iff in H
         | H : negb _ = false |- _ => apply negb_false_iff in H
         | H : _ || _ = false |- _ => apply orb_false_elim in H as [? ?]
         end.

Ltac destruct_ifs :=
  repeat match goal with
         | |- context [if ?b then _ else _] => is_var b; destruct b
         | |- context [if no_preview ?x then _ else _] => destruct (no_preview x)
         | |- context [if tried_gpu ?x then _ else _] => destruct (tried_gpu x)
         | |- context [if use_gpu ?x then _ else _] => destruct (use_gpu x)
         end.

Ltac step_cases H :=
  match type of H with
  | step ?c ?s = Some _ =>
      destruct c as [[]|[]]; cbn [step] in H;
      unfold main_step, reader_step in H;
      split_step H; injection H as <- <-; bool_norm
  end.

(** A concrete run, evaluated. *)
Ltac eval_run H cs s0 :=
  eassert (H : run cs s0 = Some (_, _)) by (vm_compute; reflexivity).

Ltac eval_main H i s :=
  eassert (H : main_step i s = Some (_, _)) by (vm_compute; reflexivity).

Ltac use_pc :=
  repeat match goal with
         | H : pc ?s = _, H' : context [pc ?s] |- _ => rewrite H in H'
         | H : use_gpu ?s = _, H' : context [use_gpu ?s] |- _ => rewrite H in H'
         | H : tried_gpu ?s = _, H' : context [tried_gpu ?s] |- _ => rewrite H in H'
         | H : pc ?s = _ |- context [pc ?s] => rewrite H
         | H : use_gpu ?s = _ |- context [use_gpu ?s] => rewrite H
         | H : tried_gpu ?s = _ |- context [tried_gpu ?s] => rewrite H
         end.



(** ** The acquisition controller: fallback *)


(** The counters of a run from the start: one fallback once the flag is
    set, and one start of the pipeline more than fallbacks once [main] has
    passed line 153. *)
Lemma counters_from_init {mach : Machine} g a cs tr s :
  run cs (init g a) = Some (tr, s) ->
  count is_fallback tr = (if tried_gpu s then 1 else 0)%nat /\
  (count is_start tr + (if at_start s then 1 else 0)
   = 1 + count is_fallback tr)%nat /\
  (tried_gpu s = true -> use_gpu s = false).
Proof.
  revert cs tr s.
  apply (run_invariant (fun tr s =>
    count is_fallback tr = (if tried_gpu s then 1 else 0)%nat /\
    (count is_start tr + (if at_start s then 1 else 0)
     = 1 + count is_fallback tr)%nat /\
    (tried_gpu s = true -> use_gpu s = false))).
  - simpl. repeat split; auto; discriminate.
  - intros tr s c l s' (Hf & Hs & Hm) Hstep.
    step_cases Hstep; rewrite !count_app; unfold at_start in *; cbn in *;
      repeat match goal with H : pc _ = _ |- _ => rewrite H in * end;
      repeat match goal with H : tried_gpu _ = _ |- _ => rewrite H in * end;
      repeat split; auto; try discriminate;
      revert Hf Hs;
      destruct_ifs; cbn; lia.
Qed.






(** ** The acquisition controller: interrupt and quit *)






(** ** The shutdown signal *)

(** C4, as stated, fails: after a quit in hardware mode the event is set,
    and the fallback step of line 195 clears it. *)
Lemma fallback_clears_shutdown : ~ shutdown_never_cleared.
Proof.
  intros Hc.
  eval_run E1 (quit_in_hardware_mode ++ teardown) (init true a_hw).
  eval_main E2 MGo (state_after (quit_in_hardware_mode ++ teardown) (init true a_hw)).
  specialize (Hc _ _ _ _ _ (Main MGo) _ _ E1 eq_refl E2).
  discriminate Hc.
Qed.

Lemma clears_from_init {mach : Machine} g a cs tr s :
  run cs (init g a) = Some (tr, s) ->
  count is_clear tr = (if tried_gpu s then 1 else 0)%nat.
Proof.
  revert cs tr s.
  apply (run_invariant (fun tr s =>
    count is_clear tr = (if tried_gpu s then 1 else 0)%nat)).
  - reflexivity.
  - intros tr s c l s' IH Hstep.
    step_cases Hstep; rewrite !count_app; cbn; use_pc;
      revert IH; destruct_ifs; cbn; intros; try lia; try discriminate.
Qed.

(** Once the fallback is out of reach, a set event stays set. *)
Lemma shutdown_stays {mach : Machine} cs : forall s tr s',
  run cs s = Some (tr, s') ->
  tried_gpu s = true \/ use_gpu s = false ->
  stop_event s = true -> stop_event s' = true.
Proof.
  intros s tr s' Hrun Hm Hst.
  assert (H : (tried_gpu s' = true \/ use_gpu s' = false) /\ stop_event s' = true);
    [|tauto].
  revert cs tr s' Hrun.
  apply (run_invariant (fun _ s' =>
    (tried_gpu s' = true \/ use_gpu s' = false) /\ stop_event s' = true));
    [auto|].
  intros tr1 s1 c l s2 [IHm IHs] Hstep.
  step_cases Hstep; cbn; auto; destruct IHm; congruence.
Qed.

(** C4, amended.  The shutdown signal is cleared by one step only, the
    fallback of lines 191-195, which needs hardware mode and an unused
    fallback; so it is cleared at most once in a run, and once the mode is
    software or the fallback is used a set signal is never cleared. *)
Theorem shutdown_cleared_only_by_fallback {mach : Machine} g a cs tr s :
  run cs (init g a) = Some (tr, s) ->
  (count is_clear tr <= 1)%nat /\
  (forall c l s', step c s = Some (l, s') ->
     stop_event s = true -> stop_event s' = false ->
     c = Main MGo /\ pc s = CAfter /\ use_gpu s = true /\
     tried_gpu s = false /\ tried_gpu s' = true) /\
  (forall cs' tr' s', run cs' s = Some (tr', s') ->
     tried_gpu s = true \/ use_gpu s = false ->
     stop_event s = true -> stop_event s' = true).
Proof.
  intros Hrun. split; [|split].
  - rewrite (clears_from_init _ _ _ _ _ Hrun). destruct (tried_gpu s); lia.
  - intros c l s' Hstep Hset Hclr.
    step_cases Hstep; cbn in *; try congruence. auto.
  - intros cs' tr' s'. apply shutdown_stays.
Qed.

Lemma shutdown_cleared_only_by_fallback_witness :
  exists tr s l s',
    run (quit_in_hardware_mode ++ teardown) (init true a_hw) = Some (tr, s) /\
    step (Main MGo) s = Some (l, s') /\
    stop_event s = true /\ stop_event s' = false /\
    (count is_clear tr <= 1)%nat /\
    (pc s = CAfter /\ use_gpu s = true /\ tried_gpu s = false /\
     tried_gpu s' = true).
Proof.
  eval_run E1 (quit_in_hardware_mode ++ teardown) (init true a_hw).
  eval_main E2 MGo (state_after (quit_in_hardware_mode ++ teardown) (init true a_hw)).
  eexists _, _, _, _.
  split; [exact E1|]. split; [exact E2|].
  split; [reflexivity|]. split; [reflexivity|].
  destruct (shutdown_cleared_only_by_fallback _ _ _ _ _ E1) as (Hle & Hone & _).
  split; [exact Hle|].
  destruct (Hone (Main MGo) _ _ E2 eq_refl eq_refl) as (_ & H); exact H.
Defined.

(** ** The stream descriptor *)

(** C8, as stated, fails: the reader thread relaunches the decoder after a
    session has ended without a new probe. *)
Lemma relaunch_without_probe : ~ probe_before_every_launch.
Proof.
  intros Hc.
  eval_run E two_sessions (init true a_hw).
  specialize (Hc _ _ _ _ _ E). vm_compute in Hc. lia.
Qed.

Lemma probes_from_init {mach : Machine} g a cs tr s :
  run cs (init g a) = Some (tr, s) ->
  count is_probe tr = count is_start tr /\ args s = a.
Proof.
  revert cs tr s.
  apply (run_invariant (fun tr s =>
    count is_probe tr = count is_start tr /\ args s = a)).
  - split; reflexivity.
  - intros tr s c l s' [IH Ha] Hstep.
    step_cases Hstep; rewrite !count_app; cbn; split; auto;
      destruct_ifs; cbn; lia.
Qed.

(** Between two starts of the pipeline the reader thread keeps the command
    and the dimensions it was started with, and launches nothing else. *)
Lemma reader_keeps_command {mach : Machine} r cs : forall s tr s',
  reader s = Some r ->
  run cs s = Some (tr, s') ->
  count is_start tr = 0%nat ->
  (exists r', reader s' = Some r' /\ r_cmd r' = r_cmd r /\
              r_width r' = r_width r /\ r_height r' = r_height r) /\
  forall pid c, In (LPopen pid c) tr -> c = r_cmd r.
Proof.
  intros s tr s' Hr Hrun. revert cs tr s' Hrun.
  apply (run_invariant (fun tr s' =>
    count is_start tr = 0%nat ->
    (exists r', reader s' = Some r' /\ r_cmd r' = r_cmd r /\
                r_width r' = r_width r /\ r_height r' = r_height r) /\
    forall pid c, In (LPopen pid c) tr -> c = r_cmd r)).
  - intros _. split; [exists r; auto|]. intros pid c [].
  - intros tr s1 c l s2 IH Hstep Hz.
    rewrite count_app in Hz.
    destruct IH as [(r1 & Hr1 & Hc1 & Hw1 & Hh1) Hp]; [lia|].
    step_cases Hstep; cbn in Hz; try lia; simplify_eq;
      (split;
       [ cbn; try (eexists; split; [reflexivity|]; cbn; auto; congruence);
         exists r1; auto
       | intros pid' c' Hin; apply in_app_or in Hin as [Hin|Hin];
         [ now apply (Hp pid' c')
         | cbn in Hin; revert Hin; destruct_ifs; cbn; intros Hin;
           repeat (destruct Hin as [Hin|Hin]; try discriminate Hin);
           try contradiction; try (injection Hin as <- <-); congruence ] ]).
Qed.

(** C8, amended.  The descriptor is resolved anew each time [main] starts
    the pipeline (one probe per start, the command built from that probe's
    answer), so it is not cached across the switch of mode; the reader
    thread, however, keeps the command and dimensions it was started with
    for every session it runs, relaunches included. *)
Theorem descriptor_per_pipeline_start {mach : Machine} g a cs tr s :
  run cs (init g a) = Some (tr, s) ->
  count is_probe tr = count is_start tr /\
  (forall d l s', main_step (MProbe d) s = Some (l, s') ->
     exists r', reader s' = Some r' /\
       (r_cmd r', r_width r', r_height r')
       = build_ffmpeg_cmd (url a) (use_gpu s) (arg_width a) (arg_height a) d) /\
  (forall r cs' tr' s', reader s = Some r ->
     run cs' s = Some (tr', s') -> count is_start tr' = 0%nat ->
     (exists r', reader s' = Some r' /\ r_cmd r' = r_cmd r /\
                 r_width r' = r_width r /\ r_height r' = r_height r) /\
     forall pid c, In (LPopen pid c) tr' -> c = r_cmd r).
Proof.
  intros Hrun. destruct (probes_from_init _ _ _ _ _ Hrun) as [Hp Ha].
  split; [exact Hp|]. split.
  - intros d l s' Hstep. unfold main_step in Hstep.
    split_step Hstep; injection Hstep as <- <-. cbn.
    eexists; split; [reflexivity|]. cbn. now rewrite <- Ha.
  - intros r cs' tr' s' Hr Hrun'. now apply (reader_keeps_command r cs' s).
Qed.

Lemma descriptor_per_pipeline_start_witness :
  exists tr s r tr' s' r',
    run [Main (MProbe (0, 2, 1))] (init true a_hw) = Some (tr, s) /\
    reader s = Some r /\
    run (tl two_sessions) s = Some (tr', s') /\
    count is_start tr' = 0%nat /\
    count is_probe tr = count is_start tr /\
    reader s' = Some r' /\ r_cmd r' = r_cmd r /\
    (forall pid c, In (LPopen pid c) tr' -> c = r_cmd r) /\
    count is_popen tr' = 2%nat.
Proof.
  eval_run E1 [Main (MProbe (0, 2, 1))] (init true a_hw).
  eval_run E2 (tl two_sessions)
    (state_after [Main (MProbe (0, 2, 1))] (init true a_hw)).
  destruct (descriptor_per_pipeline_start _ _ _ _ _ E1) as (Hp & _ & Hkeep).
  destruct (Hkeep _ _ _ _ eq_refl E2 eq_refl) as [(r' & Hr' & Hc & _) Hpop].
  eexists _, _, _, _, _, r'.
  split; [exact E1|]. split; [reflexivity|]. split; [exact E2|].
  split; [reflexivity|]. split; [exact Hp|]. split; [exact Hr'|].
  split; [exact Hc|]. split; [exact Hpop|]. reflexivity.
Defined.

(** ** The frame buffer *)

Lemma put_all_app fs : forall q,
  (maxsize q <= 0 \/ Z.of_nat (length (items q) + length fs) <= maxsize q) ->
  put_all fs q = Some {| maxsize := maxsize q; items := items q ++ fs |}.
Proof.
  induction fs as [|f fs IH]; intros [m l] Hcap; cbn in *.
  - now rewrite app_nil_r.
  - unfold put, full, qsize; cbn.
    destruct ((0 <? m) && (m <=? Z.of_nat (length l))) eqn:Hfull.
    + apply andb_prop in Hfull as [H1 H2].
      apply Z.ltb_lt in H1. apply Z.leb_le in H2. lia.
    + rewrite IH; cbn.
      * now rewrite <- app_assoc.
      * rewrite length_app. cbn. destruct Hcap; [now left|right; lia].
Qed.

Lemma get_n_app fs : forall m rest,
  get_n (length fs) {| maxsize := m; items := fs ++ rest |}
  = Some (fs, {| maxsize := m; items := rest |}).
Proof.
  induction fs as [|f fs IH]; intros m rest; cbn.
  - reflexivity.
  - unfold get; cbn. now rewrite IH.
Qed.

(** C6.  On an empty buffer whose capacity is at least [n] (or unbounded),
    [n] puts all succeed, and the [n] gets that follow return the frames
    put, in the order they were put, and leave the buffer empty. *)
Theorem buffer_is_fifo fs q :
  items q = [] ->
  maxsize q <= 0 \/ Z.of_nat (length fs) <= maxsize q ->
  exists q', put_all fs q = Some q' /\ items q' = fs /\
             get_n (length fs) q' = Some (fs, q).
Proof.
  intros He Hcap. destruct q as [m l]; cbn in *; subst l.
  rewrite put_all_app; cbn; [|exact Hcap].
  eexists; split; [reflexivity|]. split; [reflexivity|].
  rewrite <- (app_nil_r fs) at 2. apply get_n_app.
Qed.

Lemma buffer_is_fifo_witness :
  exists q',
    put_all [frame0; frame0] {| maxsize := 30; items := [] |} = Some q' /\
    items q' = [frame0; frame0] /\
    get_n 2 q' = Some ([frame0; frame0], {| maxsize := 30; items := [] |}).
Proof.
  apply (buffer_is_fifo [frame0; frame0] {| maxsize := 30; items := [] |}).
  - reflexivity.
  - right. cbn. lia.
Defined.

Lemma puts_app tr1 tr2 : puts (tr1 ++ tr2) = puts tr1 ++ puts tr2.
Proof.
  induction tr1 as [|[] tr1 IH]; cbn; auto. now rewrite IH.
Qed.

Lemma gets_app tr1 tr2 : gets (tr1 ++ tr2) = gets tr1 ++ gets tr2.
Proof.
  induction tr1 as [|[] tr1 IH]; cbn; auto. now rewrite IH.
Qed.

(** The buffer of a run: its capacity is 30, it never holds more, and the
    frames put so far are the frames taken so far followed by the frames
    it holds. *)
Lemma buffer_of_run {mach : Machine} g a cs tr s :
  run cs (init g a) = Some (tr, s) ->
  maxsize (frame_queue s) = 30 /\
  (length (items (frame_queue s)) <= 30)%nat /\
  puts tr = gets tr ++ items (frame_queue s).
Proof.
  revert cs tr s.
  apply (run_invariant (fun tr s =>
    maxsize (frame_queue s) = 30 /\
    (length (items (frame_queue s)) <= 30)%nat /\
    puts tr = gets tr ++ items (frame_queue s))).
  - cbn. repeat split; lia.
  - intros tr s c l s' (Hm & Hl & Hpg) Hstep.
    step_cases Hstep; rewrite puts_app, gets_app; cbn;
      rewrite ?app_nil_r; auto;
      try (unfold get in *; destruct (items (frame_queue s)) eqn:Hi;
           simplify_eq; cbn in *; repeat split; auto; try lia;
           rewrite Hpg, <- app_assoc; reflexivity);
      try (destruct_ifs; cbn; rewrite ?app_nil_r; auto; fail).
    unfold put, full, qsize in *.
    destruct ((0 <? maxsize (frame_queue s))
              && (maxsize (frame_queue s) <=? Z.of_nat (length (items (frame_queue s)))))
      eqn:Hfull; simplify_eq; cbn.
    rewrite length_app; cbn. rewrite Hm in Hfull. cbn in Hfull.
    apply Z.leb_gt in Hfull.
    repeat split; auto; try lia. now rewrite Hpg, app_assoc.
Qed.

(** C5, as stated, fails: with the shutdown signal set and room in the
    buffer, [put] enqueues the frame all the same. *)
Lemma put_ignores_shutdown : ~ put_yields_to_shutdown.
Proof.
  intros Hc.
  eval_run E interrupt_before_put (init true a_hw).
  destruct (Hc _ _ _ _ _ _ 0%nat frame0 E eq_refl eq_refl eq_refl)
    as (l & s' & Hstep & Hq).
  vm_compute in Hstep. injection Hstep as _ <-. discriminate Hq.
Qed.

(** C5, amended.  While the buffer holds its 30 frames the reader's [put]
    cannot proceed, whatever the shutdown signal is, and a [get] by [main]
    lets it proceed; with room in the buffer [put] appends the frame,
    again whatever the shutdown signal is. *)
Theorem put_blocks_while_full {mach : Machine} g a cs tr s r pid f :
  run cs (init g a) = Some (tr, s) ->
  reader s = Some r -> r_pc r = RPut pid f ->
  if full (frame_queue s)
  then
    length (items (frame_queue s)) = 30%nat /\
    (forall b i, reader_step i (set_stop s b) = None) /\
    (forall key l s1, main_step (MFrame key) s = Some (l, s1) ->
       exists s2, reader_step RGo s1 = Some ([LPut f], s2) /\
         items (frame_queue s2) = items (frame_queue s1) ++ [f])
  else
    (length (items (frame_queue s)) < 30)%nat /\
    forall b, exists s',
      reader_step RGo (set_stop s b) = Some ([LPut f], s') /\
      items (frame_queue s') = items (frame_queue s) ++ [f].
Proof.
  intros Hrun Hr Hpc.
  destruct (buffer_of_run _ _ _ _ _ Hrun) as (Hm & Hl & _).
  destruct (full (frame_queue s)) eqn:Hfull.
  - unfold full, qsize in Hfull. rewrite Hm in Hfull. cbn in Hfull.
    apply Z.leb_le in Hfull.
    assert (Hlen : length (items (frame_queue s)) = 30%nat) by lia.
    split; [exact Hlen|]. split.
    + intros b i. unfold reader_step. cbn. rewrite Hr, Hpc.
      unfold put, full, qsize. rewrite Hm, Hlen. now destruct i.
    + intros key l s1 Hstep.
      assert (Hs1 : reader s1 = Some r /\
                    maxsize (frame_queue s1) = 30 /\
                    length (items (frame_queue s1)) = 29%nat).
      { unfold main_step in Hstep. split_step Hstep;
          injection Hstep as <- <-; cbn;
          unfold get in *; destruct (items (frame_queue s)) eqn:Hi;
          simplify_eq; cbn in *; repeat split; auto; lia. }
      destruct Hs1 as (Hr1 & Hm1 & Hl1).
      unfold reader_step. rewrite Hr1, Hpc.
      unfold put, full, qsize. rewrite Hm1, Hl1. cbn.
      eexists; split; reflexivity.
  - unfold full, qsize in Hfull. rewrite Hm in Hfull. cbn in Hfull.
    apply Z.leb_gt in Hfull. split; [lia|].
    intros b. unfold reader_step. cbn. rewrite Hr, Hpc.
    unfold put, full, qsize. rewrite Hm. cbn.
    destruct (30 <=? Z.of_nat (length (items (frame_queue s)))) eqn:H30;
      [apply Z.leb_le in H30; lia|].
    eexists; split; reflexivity.
Qed.

Lemma put_blocks_while_full_witness :
  exists tr s,
    run interrupt_before_put (init true a_hw) = Some (tr, s) /\
    stop_event s = true /\ full (frame_queue s) = false /\
    exists s', reader_step RGo s = Some ([LPut frame0], s') /\
      items (frame_queue s') = items (frame_queue s) ++ [frame0].
Proof.
  eval_run E interrupt_before_put (init true a_hw).
  eexists _, _. split; [exact E|]. split; [reflexivity|]. split; [reflexivity|].
  pose proof (put_blocks_while_full _ _ _ _ _ _ 0%nat frame0 E eq_refl eq_refl)
    as H.
  cbn in H. destruct H as [_ H]. exact (H true).
Defined.

(** ** The frame framer *)

Lemma whole_frame_app tr l f : whole_frame tr f -> whole_frame (tr ++ l) f.
Proof.
  intros [Hs [pid Hin]]. split; [exact Hs|].
  exists pid. apply in_or_app. now left.
Qed.

Lemma reshape_Some raw h w f :
  reshape raw h w = Some f ->
  f = {| f_height := h; f_width := w; f_data := raw |} /\
  Z.of_nat (length raw) = w * h * 3.
Proof.
  unfold reshape. destruct (_ && _) eqn:Hc; [|discriminate].
  intros E. injection E as <-. bool_norm.
  match goal with H : (_ =? _) = true |- _ => apply Z.eqb_eq in H end.
  split; [reflexivity|lia].
Qed.

(** Every frame put so far, and the frame the reader is about to put, is
    one whole read. *)
Lemma frames_of_run {mach : Machine} g a cs tr s :
  run cs (init g a) = Some (tr, s) ->
  (forall f, In (LPut f) tr -> whole_frame tr f) /\
  (forall r pid f, reader s = Some r -> r_pc r = RPut pid f ->
     whole_frame tr f /\ f_width f = r_width r /\ f_height f = r_height r).
Proof.
  revert cs tr s.
  apply (run_invariant (fun tr s =>
    (forall f, In (LPut f) tr -> whole_frame tr f) /\
    (forall r pid f, reader s = Some r -> r_pc r = RPut pid f ->
       whole_frame tr f /\ f_width f = r_width r /\ f_height f = r_height r))).
  - split; [intros f []|]. cbn. discriminate.
  - intros tr s c l s' [Hput Hpend] Hstep.
    assert (Hold : forall f, In (LPut f) tr -> whole_frame (tr ++ l) f).
    { intros f Hf. apply whole_frame_app. auto. }
    step_cases Hstep; cbn [reader set_pc set_stop set_queue set_reader
                            set_procs set_mode];
      (split;
       [ intros f' Hin; apply in_app_or in Hin as [Hin|Hin]; [now apply Hold|];
         cbn in Hin; revert Hin; destruct_ifs; cbn; intros Hin;
         repeat (destruct Hin as [Hin|Hin]; try discriminate Hin);
         try contradiction
       | intros r' pid' f' Hr' Hpc'; cbn in Hr';
         first [ destruct (Hpend _ _ _ Hr' Hpc') as (Hw & ? & ?);
                 split; [now apply whole_frame_app|auto]
               | simplify_eq; cbn in *; try discriminate; try congruence ] ]).
    + (* the read that yields a frame *)
      injection Hpc' as <- <-.
      match goal with H : reshape _ _ _ = Some _ |- _ =>
        apply reshape_Some in H as [-> Hsz] end.
      cbn. repeat split; auto.
      eexists. apply in_or_app. right. cbn. eauto.
    + (* the put *)
      injection Hin as <-.
      match goal with H : r_pc _ = RPut _ _ |- _ =>
        destruct (Hpend _ _ _ eq_refl H) as (Hw & _) end.
      now apply whole_frame_app.
Qed.

Lemma pipe_read_length {mach : Machine} n out raw rest :
  0 <= n -> pipe_read n out = Ok (raw, rest) ->
  Z.of_nat (length raw) <= n /\ out = raw ++ rest.
Proof.
  intros Hn. unfold pipe_read.
  destruct (n <? -1) eqn:H1; [apply Z.ltb_lt in H1; lia|].
  destruct (n =? -1) eqn:H2; [apply Z.eqb_eq in H2; lia|].
  destruct (bytes_max <? n); [discriminate|].
  destruct (Z.of_N alloc_max <? n); [discriminate|].
  intros E. injection E as <- <-. rewrite length_take, take_drop.
  split; [lia|reflexivity].
Qed.

(** [read] returns for the sizes called [readable], and raises for every
    other size that is not negative. *)
Lemma pipe_read_readable {mach : Machine} n out :
  readable n = true ->
  pipe_read n out = Ok (take (Z.to_nat n) out, drop (Z.to_nat n) out).
Proof.
  unfold readable, pipe_read. intros Hr.
  apply andb_prop in Hr as [Hr H3]. apply andb_prop in Hr as [H1 H2].
  apply Z.leb_le in H1, H2, H3.
  destruct (n <? -1) eqn:E1; [apply Z.ltb_lt in E1; lia|].
  destruct (n =? -1) eqn:E2; [apply Z.eqb_eq in E2; lia|].
  destruct (bytes_max <? n) eqn:E3; [apply Z.ltb_lt in E3; lia|].
  destruct (Z.of_N alloc_max <? n) eqn:E4; [apply Z.ltb_lt in E4; lia|].
  reflexivity.
Qed.

Lemma pipe_read_unreadable {mach : Machine} n out :
  0 <= n -> readable n = false ->
  pipe_read n out
  = Raise (if bytes_max <? n then OverflowError else MemoryError).
Proof.
  unfold readable, pipe_read. intros Hn Hr.
  destruct (n <? -1) eqn:E1; [apply Z.ltb_lt in E1; lia|].
  destruct (n =? -1) eqn:E2; [apply Z.eqb_eq in E2; lia|].
  destruct (bytes_max <? n) eqn:E3; [reflexivity|].
  destruct (Z.of_N alloc_max <? n) eqn:E4; [reflexivity|].
  apply Z.ltb_ge in E3, E4.
  rewrite !andb_false_iff in Hr. destruct Hr as [[Hr|Hr]|Hr];
    apply Z.leb_gt in Hr; lia.
Qed.

(** C2.  Every frame the framer hands to the buffer holds exactly
    [width * height * 3] bytes, the bytes of one read.  For valid
    dimensions a read inside a session that returns either returns that
    many bytes, and the frame made of them is what the reader puts next, or
    it returns fewer (none included): then nothing is put, the reader
    leaves the session, and its next step kills the process and is back at
    the top of the supervisor loop, the buffer untouched.  Where the frame
    size is more than [read] can allocate, the read raises instead: no
    frame is put either, and the reader is back at the top of the loop. *)
Theorem framer_emits_whole_frames_only {mach : Machine} g a cs tr s :
  run cs (init g a) = Some (tr, s) ->
  (forall f, In (LPut f) tr -> whole_frame tr f) /\
  forall r pid l s',
    reader s = Some r -> r_pc r = RInner pid -> stop_event s = false ->
    0 < r_width r -> 0 < r_height r ->
    reader_step RGo s = Some (l, s') ->
    if readable (r_width r * r_height r * 3)
    then
      exists raw, l = [LRead pid raw] /\
        if Z.of_nat (length raw) <? r_width r * r_height r * 3
        then
          reader s' = Some (at_pc r (RKill pid)) /\
          frame_queue s' = frame_queue s /\
          forall i l2 s2, reader_step i s' = Some (l2, s2) ->
            l2 = [LKill pid; LSleep 1] /\
            reader s2 = Some (at_pc r RTop) /\
            frame_queue s2 = frame_queue s
        else
          Z.of_nat (length raw) = r_width r * r_height r * 3 /\
          reader s' = Some (at_pc r (RPut pid {| f_height := r_height r;
                                                 f_width := r_width r;
                                                 f_data := raw |}))
    else
      exists e, l = [LReadFail pid e; LSleep 2] /\
        (e = OverflowError \/ e = MemoryError) /\
        reader s' = Some (at_pc r RTop) /\
        frame_queue s' = frame_queue s.
Proof.
  intros Hrun. split; [exact (proj1 (frames_of_run _ _ _ _ _ Hrun))|].
  intros r pid l s' Hr Hpc Hstop Hw Hh Hstep.
  unfold reader_step in Hstep. rewrite Hr, Hpc, Hstop in Hstep.
  destruct (procs s !! pid) as [p|] eqn:Hp; [|discriminate].
  cbv zeta in Hstep.
  destruct (readable (r_width r * r_height r * 3)) eqn:Hable.
  2: { rewrite pipe_read_unreadable in Hstep by (auto; nia).
       injection Hstep as <- <-. eexists. split; [reflexivity|].
       split; [destruct (bytes_max <? _); auto|]. split; reflexivity. }
  destruct (pipe_read (r_width r * r_height r * 3) (p_out p))
    as [[raw rest]|e] eqn:Hread.
  2: { rewrite pipe_read_readable in Hread by exact Hable. discriminate. }
  apply pipe_read_length in Hread as [Hlen _]; [|nia].
  exists raw.
  destruct (Z.of_nat (length raw) <? r_width r * r_height r * 3) eqn:Hshort.
  - rewrite orb_true_r in Hstep. injection Hstep as <- <-.
    split; [reflexivity|]. cbn. split; [reflexivity|]. split; [reflexivity|].
    intros j l2 s2 Hstep2. unfold reader_step in Hstep2. cbn in Hstep2.
    destruct j; try discriminate. injection Hstep2 as <- <-. cbn. auto.
  - apply Z.ltb_ge in Hshort.
    assert (Hsz : Z.of_nat (length raw) = r_width r * r_height r * 3) by lia.
    assert (Hnz : (Z.of_nat (length raw) =? 0) = false)
      by (apply Z.eqb_neq; nia).
    rewrite Hnz in Hstep. cbn [orb] in Hstep.
    unfold reshape in Hstep.
    assert (Hc : (0 <=? r_height r) && (0 <=? r_width r)
                 && (Z.of_nat (length raw) =? r_height r * r_width r * 3) = true).
    { rewrite !andb_true_iff. repeat split.
      - apply Z.leb_le. lia.
      - apply Z.leb_le. lia.
      - apply Z.eqb_eq. lia. }
    rewrite Hc in Hstep. injection Hstep as <- <-.
    split; [reflexivity|]. split; [exact Hsz|reflexivity].
Qed.

Lemma framer_emits_whole_frames_only_witness :
  exists tr s r l s',
    run [Main (MProbe (0, 2, 1)); Reader (RPopen (Ok (six_bytes ++ [x00])));
         Reader RGo; Reader RGo] (init true a_hw) = Some (tr, s) /\
    reader s = Some r /\ r_pc r = RInner 0 /\ stop_event s = false /\
    0 < r_width r /\ 0 < r_height r /\
    reader_step RGo s = Some (l, s') /\
    In (LPut frame0) tr /\ whole_frame tr frame0 /\
    l = [LRead 0%nat [x00]] /\
    reader s' = Some (at_pc r (RKill 0)) /\ frame_queue s' = frame_queue s.
Proof.
  eval_run E [Main (MProbe (0, 2, 1)); Reader (RPopen (Ok (six_bytes ++ [x00])));
              Reader RGo; Reader RGo] (init true a_hw).
  eassert (E2 : reader_step RGo _ = Some (_, _)).
  { match goal with |- reader_step RGo ?s = _ =>
      unify s (state_after
                 [Main (MProbe (0, 2, 1));
                  Reader (RPopen (Ok (six_bytes ++ [x00])));
                  Reader RGo; Reader RGo] (init true a_hw)) end.
    vm_compute. reflexivity. }
  destruct (framer_emits_whole_frames_only _ _ _ _ _ E) as [Hput Hread].
  pose proof (Hread _ 0%nat _ _ eq_refl eq_refl eq_refl eq_refl eq_refl E2)
    as Hif.
  vm_compute readable in Hif. destruct Hif as (raw & Hl & Hif).
  injection Hl as <-. cbn in Hif. destruct Hif as (Hr' & Hq & _).
  eexists _, _, _, _, _.
  split; [exact E|]. split; [reflexivity|]. split; [reflexivity|].
  split; [reflexivity|]. split; [reflexivity|]. split; [reflexivity|].
  split; [exact E2|].
  assert (Hin : In (LPut frame0)
                  (trace_after
                     [Main (MProbe (0, 2, 1));
                      Reader (RPopen (Ok (six_bytes ++ [x00])));
                      Reader RGo; Reader RGo] (init true a_hw))).
  { vm_compute. tauto. }
  split; [exact Hin|]. split; [exact (Hput _ Hin)|].
  split; [reflexivity|]. split; [exact Hr'|exact Hq].
Defined.

(** ** The process supervisor *)

(** C3, the failing run: started with [--width -2 --height 1] the reader
    launches the decoder, [read(-6)] raises [ValueError], the handler of
    line 132 sleeps and goes back to the loop head without [proc.kill()];
    when the program has ended the process has never been killed. *)
Theorem read_error_leaks_process :
  exists tr s p,
    run read_error_run (init true a_neg) = Some (tr, s) /\
    pc s = CExit /\ reader_done s = true /\
    In (LReadFail 0 ValueError) tr /\ count is_popen tr = 1%nat /\
    procs s !! 0%nat = Some p /\ p_killed p = false.
Proof.
  eval_run E read_error_run (init true a_neg).
  eexists _, _, _. split; [exact E|].
  split; [reflexivity|]. split; [reflexivity|].
  split; [cbn; tauto|]. split; [reflexivity|]. split; reflexivity.
Qed.

(** [main] starts a reader thread, or passes the join, only when no reader
    thread is running. *)
Lemma one_reader_at_a_time {mach : Machine} g a cs tr s :
  run cs (init g a) = Some (tr, s) ->
  between_pipelines s = true -> joined s.
Proof.
  revert cs tr s.
  apply (run_invariant (fun _ s => between_pipelines s = true -> joined s)).
  - intros _. exact I.
  - intros tr s c l s' IH Hstep. unfold between_pipelines, joined in *.
    step_cases Hstep; cbn in *; use_pc; cbn in *; try discriminate; auto;
      try (intros Hb; specialize (IH Hb); simplify_eq; cbn in *; congruence).
    unfold reader_done in *. destruct (reader s) as [r|]; [|discriminate].
    intros _. destruct (r_pc r); try discriminate. reflexivity.
Qed.

(** [run_invariant] with the run so far at hand. *)
Lemma run_invariant_r {mach : Machine} (I : list label -> sys -> Prop) s0 :
  I [] s0 ->
  (forall cs tr s c l s', run cs s0 = Some (tr, s) -> I tr s ->
     step c s = Some (l, s') -> I (tr ++ l) s') ->
  forall cs tr s, run cs s0 = Some (tr, s) -> I tr s.
Proof.
  intros H0 Hstep cs. induction cs as [|c cs IH] using rev_ind; intros tr s Hrun.
  - simpl in Hrun. injection Hrun as <- <-. exact H0.
  - apply run_snoc in Hrun as (tr1 & s1 & l & Hrun & Hs & ->).
    eapply Hstep; eauto.
Qed.

Lemma kill_lookup pid ps i p :
  kill pid ps !! i = Some p ->
  (i = pid /\ p_killed p = true) \/ (i <> pid /\ ps !! i = Some p).
Proof.
  unfold kill. destruct (ps !! pid) as [q|] eqn:Hq.
  - destruct (decide (i = pid)) as [->|Hne].
    + rewrite list_lookup_insert_eq by (eapply lookup_lt_Some; eauto).
      intros E. injection E as <-. now left.
    + rewrite list_lookup_insert_ne by auto. now right.
  - intros Hi. right. split; [|exact Hi]. intros ->. congruence.
Qed.

Lemma in_session_same s s' r r' pid :
  reader s = Some r -> reader s' = Some r' ->
  session_pid (r_pc r') = session_pid (r_pc r) ->
  in_session s pid -> in_session s' pid.
Proof.
  intros Hr Hr' Heq (r0 & Hr0 & Hp). exists r'. split; [exact Hr'|].
  rewrite Heq. congruence.
Qed.

Ltac same_reader :=
  repeat match goal with
         | H1 : reader ?s = Some ?a, H2 : reader ?s = Some ?b |- _ =>
             assert (a = b) by congruence; subst a; clear H1
         end.

Ltac use_rpc :=
  repeat match goal with
         | H : r_pc ?r = _, H' : context [r_pc ?r] |- _ => rewrite H in H'
         end.

Ltac insert_case Hi Hnl :=
  match type of Hi with
  | <[?pid := _]> _ !! ?i = Some ?p =>
      destruct (decide (i = pid)) as [->|Hne];
      [ right; eexists; split; [reflexivity|]; reflexivity
      | rewrite list_lookup_insert_ne in Hi by auto;
        let Hk := fresh in let r1 := fresh in
        let Hr1 := fresh in let Hs1 := fresh in
        destruct (Hnl i p Hi) as [Hk|(r1 & Hr1 & Hs1)]; [now left|];
        injection Hr1 as <-; use_rpc; cbn in Hs1; congruence ]
  end.

(** As long as no [read] raises, every process the reader has launched is
    killed before the reader launches the next one or returns. *)
Lemma no_leak_without_read_error {mach : Machine} g a cs tr s :
  run cs (init g a) = Some (tr, s) ->
  count is_read_fail tr = 0%nat -> no_leak s.
Proof.
  revert cs tr s.
  apply (run_invariant_r (fun tr s => count is_read_fail tr = 0%nat -> no_leak s)).
  - intros _ i p Hi. cbn in Hi. discriminate.
  - intros cs tr s c l s' Hrun IH Hstep Hz.
    rewrite count_app in Hz.
    assert (Hnl : no_leak s) by (apply IH; lia).
    pose proof (one_reader_at_a_time _ _ _ _ _ Hrun) as Hj.
    unfold no_leak, in_session, joined, between_pipelines in *.
    step_cases Hstep; cbn in Hz; try lia; cbn [procs reader set_pc set_stop
      set_queue set_reader set_procs set_mode];
      intros i' p' Hi.
    all: try (destruct (Hnl i' p' Hi) as [Hk|(r1 & Hr1 & Hs1)]; [now left|];
              try (injection Hr1 as <-); use_rpc; cbn in Hs1;
              first [ discriminate
                    | right; eexists; split; [first [reflexivity|eassumption]|];
                      cbn; congruence
                    | specialize (Hj eq_refl); rewrite Hr1 in Hj;
                      rewrite Hj in Hs1; discriminate ]).
    + (* Popen *)
      apply lookup_app_Some in Hi as [Hi|[Hge Hi]].
      * destruct (Hnl i' p' Hi) as [Hk|(r1 & Hr1 & Hs1)]; [now left|].
        injection Hr1 as <-. rewrite Heqr1 in Hs1. discriminate.
      * right. eexists; split; [reflexivity|]. cbn.
        apply lookup_lt_Some in Hi. cbn in Hi. f_equal. lia.
    + insert_case Hi Hnl.
    + insert_case Hi Hnl.
    + insert_case Hi Hnl.
    + (* kill *)
      apply kill_lookup in Hi as [[-> Hk]|[Hne Hi]]; [now left|].
      destruct (Hnl i' p' Hi) as [Hk|(r1 & Hr1 & Hs1)]; [now left|].
      injection Hr1 as <-. use_rpc. cbn in Hs1. congruence.
Qed.

(** * Further properties of the code *)

(** ** The prober on arbitrary probe output *)

Section ProberMore.

Context `{Outside}.

(** What the scan can end with: the accumulator it started from, or a
    listed video stream of larger area. *)
Lemma scan_streams_sound l : forall b b',
  scan_streams b l = Ok b' ->
  b' = b \/
  exists s a, In s l /\ is_video s = true /\ stream_area s = Some a /\
              best_area b < a /\ b' = picked s a.
Proof.
  induction l as [|s l IH]; intros b b' Hscan; cbn in Hscan.
  - injection Hscan as <-. now left.
  - destruct s; try discriminate Hscan.
    destruct (scan_stream_obj b kv) as [[E _]|(a & Hv & Ha & Hlt & E)];
      rewrite E in Hscan; cbn in Hscan.
    + destruct (IH _ _ Hscan) as [->|(s & a & Hin & Hr)]; [now left|].
      right. exists s, a. split; [now right|exact Hr].
    + destruct (IH _ _ Hscan) as [->|(s & a2 & Hin & Hv2 & Ha2 & Hlt2 & ->)].
      * right. exists (JObj kv), a. split; [now left|auto].
      * right. exists s, a2. cbn in Hlt2. split; [now right|].
        repeat split; auto. lia.
Qed.

(** Whatever the probe tool writes, the prober returns the default
    descriptor or the index, width and height of one listed video stream,
    whose area is positive and whose index is not null. *)
Theorem prober_result_is_listed url :
  get_highest_res_stream_index url = default_descriptor \/
  exists out info s a,
    check_output (probe_cmd url) = Ok out /\ json_loads out = Ok info /\
    In s (listed_streams info) /\ is_video s = true /\
    stream_area s = Some a /\ 0 < a /\ stream_index s <> JNull /\
    get_highest_res_stream_index url = selected s.
Proof.
  unfold get_highest_res_stream_index, probe_body.
  destruct (check_output (probe_cmd url)) as [out|e] eqn:Ho; cbn; [|now left].
  destruct (json_loads out) as [info|e] eqn:Hi; cbn; [|now left].
  destruct (py_get info "streams" (JArr [])) as [streams|e] eqn:Hs; cbn;
    [|now left].
  destruct (py_iter streams) as [l|e] eqn:Hl; cbn; [|now left].
  destruct (scan_streams best_init l) as [b|e] eqn:Hscan; cbn; [|now left].
  destruct (scan_streams_sound _ _ _ Hscan) as [->|(s & a & Hin & Hv & Ha & Hlt & ->)].
  - now left.
  - cbn in *. destruct (is_not_None (stream_index s)) eqn:Hidx; [|now left].
    right. exists out, info, s, a.
    assert (Hn : stream_index s <> JNull)
      by (intros Hn; rewrite Hn in Hidx; discriminate).
    assert (Hls : In s (listed_streams info))
      by (unfold listed_streams; rewrite Hs; cbn; rewrite Hl; exact Hin).
    repeat split; auto.
Qed.

(** An entry that is not an object makes the scan raise, wherever it
    stands in the list. *)
Lemma scan_streams_raises l : forall b s,
  In s l -> is_object s = false -> exists e, scan_streams b l = Raise e.
Proof.
  induction l as [|s0 l IH]; intros b s Hin Hobj; [destruct Hin|].
  cbn. destruct Hin as [->|Hin].
  - destruct s; try discriminate Hobj; eexists; reflexivity.
  - destruct (scan_stream b s0) as [b1|e]; cbn; [|now exists e].
    now apply (IH b1 s).
Qed.

(** When the list the prober walks through holds an entry that is not an
    object (a number, a string, the keys of a dict given for ["streams"]),
    the prober returns the default descriptor, also when a proper video
    stream stands before that entry. *)
Theorem malformed_entry_gives_default url out info streams l s :
  check_output (probe_cmd url) = Ok out ->
  json_loads out = Ok info ->
  py_get info "streams" (JArr []) = Ok streams ->
  py_iter streams = Ok l ->
  In s l -> is_object s = false ->
  get_highest_res_stream_index url = default_descriptor.
Proof.
  intros Ho Hi Hs Hl Hin Hobj.
  unfold get_highest_res_stream_index, probe_body.
  rewrite Ho; cbn. rewrite Hi; cbn. rewrite Hs; cbn. rewrite Hl; cbn.
  destruct (scan_streams_raises l best_init s Hin Hobj) as [e E].
  now rewrite E.
Qed.

(** The scan over a list of objects, whether they carry an index or not:
    it ends with the accumulator when no video stream has a larger area,
    and otherwise with the earliest video stream of largest area. *)
Lemma scan_objects l : forall b,
  Forall (fun s => is_object s = true) l ->
  exists b', scan_streams b l = Ok b' /\
    ((b' = b /\
      forall s a, In s l -> is_video s = true -> stream_area s = Some a ->
        a <= best_area b)
     \/ exists i s a, l !! i = Some s /\ is_video s = true /\
          stream_area s = Some a /\ best_area b < a /\ b' = picked s a /\
          forall j s' a', l !! j = Some s' -> is_video s' = true ->
            stream_area s' = Some a' -> a' <= a /\ ((j < i)%nat -> a' < a)).
Proof.
  induction l as [|s l IH]; intros b Hobj.
  - exists b. split; [reflexivity|]. left. split; [reflexivity|]. intros s a [].
  - apply Forall_cons in Hobj as [Hs Hobj].
    destruct s as [| | | | | |kv]; try discriminate Hs. clear Hs.
    assert (Hstep : exists b1, scan_stream b (JObj kv) = Ok b1 /\
              best_area b <= best_area b1 /\
              (forall a, is_video (JObj kv) = true ->
                 stream_area (JObj kv) = Some a -> a <= best_area b1) /\
              (b1 = b \/ exists a, is_video (JObj kv) = true /\
                 stream_area (JObj kv) = Some a /\ best_area b < a /\
                 b1 = picked (JObj kv) a)).
    { destruct (scan_stream_obj b kv) as [[E Hle]|(a & Hv & Ha & Hlt & E)].
      - exists b. repeat split; auto; try lia.
      - exists (picked (JObj kv) a). cbn. repeat split; auto; try lia.
        + intros a' _ Ha'. rewrite Ha in Ha'. injection Ha' as <-. lia.
        + right. exists a. auto. }
    destruct Hstep as (b1 & E1 & Hmono & Hhead & Hb1).
    destruct (IH b1 Hobj) as (b' & E' & Hrest).
    exists b'. split; [cbn [scan_streams]; rewrite E1; exact E'|].
    destruct Hrest as [[-> Hle]|(i & s & a & Hi & Hv & Ha & Hlt & -> & Hmax)].
    + destruct Hb1 as [->|(a & Hv & Ha & Hlt & ->)].
      * left. split; [reflexivity|].
        intros s a [<-|Hin] Hv Ha; [now apply Hhead|now apply (Hle s)].
      * right. exists 0%nat, (JObj kv), a. repeat split; auto.
        -- destruct j as [|j]; cbn in *.
           ++ simplify_eq. lia.
           ++ apply (Hle s'); auto. apply list_elem_of_In.
              eapply list_elem_of_lookup_2; eauto.
        -- lia.
    + right. exists (S i), s, a. repeat split; auto; try lia.
      * destruct j as [|j]; cbn in *.
        -- simplify_eq. match goal with
             | Hv' : is_video _ = true, Ha' : stream_area _ = Some _ |- _ =>
                 specialize (Hhead _ Hv' Ha') end. lia.
        -- eapply Hmax; eauto.
      * destruct j as [|j]; cbn in *; intros Hj.
        -- simplify_eq. match goal with
             | Hv' : is_video _ = true, Ha' : stream_area _ = Some _ |- _ =>
                 specialize (Hhead _ Hv' Ha') end. lia.
        -- eapply Hmax; eauto. lia.
Qed.

(** A video stream without index can win the comparison; the prober then
    returns the default descriptor, though other listed video streams have
    an index. *)
Theorem best_stream_without_index_gives_default url out info l i s :
  check_output (probe_cmd url) = Ok out ->
  json_loads out = Ok info ->
  lists_streams info l ->
  Forall (fun s => is_object s = true) l ->
  first_largest l i s -> stream_index s = JNull ->
  get_highest_res_stream_index url = default_descriptor.
Proof.
  intros Ho Hi (kv & -> & Hl) Hobj (Hs & Hv & a & Ha & Hpos & Hmax) Hnull.
  unfold get_highest_res_stream_index, probe_body.
  rewrite Ho; cbn. rewrite Hi; cbn. rewrite Hl; cbn.
  destruct (scan_objects l best_init Hobj) as (b' & E & Hb'). rewrite E; cbn.
  destruct Hb' as [[-> Hle]|(i' & s' & a' & Hs' & Hv' & Ha' & Hlt' & -> & Hmax')].
  - reflexivity.
  - destruct (Hmax i' s' a' Hs' Hv' Ha') as [Hle1 Hlt1].
    destruct (Hmax' i s a Hs Hv Ha) as [Hle2 Hlt2].
    assert (i = i') by lia. subst i'.
    rewrite Hs in Hs'. injection Hs' as <-. cbn. now rewrite Hnull.
Qed.

End ProberMore.

Lemma malformed_entry_gives_default_witness :
  In (JInt 7) malformed_streams /\ is_object (JInt 7) = false /\
  @get_highest_res_stream_index outside_malformed "u" = default_descriptor.
Proof.
  assert (Hin : In (JInt 7) malformed_streams) by (cbn; tauto).
  split; [exact Hin|]. split; [reflexivity|].
  exact (@malformed_entry_gives_default outside_malformed "u" _ _ _ _ (JInt 7)
           eq_refl eq_refl eq_refl eq_refl Hin eq_refl).
Defined.

Lemma best_stream_without_index_gives_default_witness :
  @first_largest outside_unindexed unindexed_streams 1 unindexed_stream /\
  stream_index unindexed_stream = JNull /\
  @get_highest_res_stream_index outside_unindexed "u" = default_descriptor.
Proof.
  assert (Hfl : @first_largest outside_unindexed unindexed_streams 1
                  unindexed_stream).
  { split; [reflexivity|]. split; [reflexivity|].
    exists (1920 * 1080). split; [reflexivity|]. split; [lia|].
    intros j s' a' Hj Hv Ha.
    destruct j as [|[|j]]; cbn in Hj; try discriminate;
      injection Hj as <-; cbn in Ha; injection Ha as <-; split; lia. }
  split; [exact Hfl|]. split; [reflexivity|].
  assert (Hobj : Forall (fun s => is_object s = true) unindexed_streams)
    by (repeat constructor).
  exact (@best_stream_without_index_gives_default outside_unindexed "u" _ _
           unindexed_streams 1 unindexed_stream eq_refl eq_refl
           (ex_intro _ _ (conj eq_refl eq_refl)) Hobj Hfl eq_refl).
Defined.

(** ** The quit key *)

(** [cv2.waitKey(1) & 0xFF == ord('q')] looks at the low byte of the key
    code only: a key quits exactly when its code is 113 modulo 256, so
    modifier bits above the low byte do not matter and the "no key" value
    -1 never quits. *)
Theorem quit_key_low_byte key :
  is_quit key = (key mod 256 =? 113) /\
  (forall m, is_quit (key + 256 * m) = is_quit key) /\
  is_quit (-1) = false.
Proof.
  assert (Hmod : forall k, is_quit k = (k mod 256 =? 113)).
  { intros k. unfold is_quit. change 255 with (Z.ones 8).
    rewrite Z.land_ones by lia. reflexivity. }
  split; [apply Hmod|]. split; [|reflexivity].
  intros m. rewrite !Hmod. rewrite Z.mul_comm, Z_mod_plus_full. reflexivity.
Qed.

(** ** The frame buffer in a run *)

(** In every run the buffer holds at most 30 frames, and the frames put so
    far are exactly the frames taken so far followed by the frames still
    held: nothing is lost, duplicated or reordered, across sessions and
    across the fallback. *)
Theorem buffer_bounded_and_lossless {mach : Machine} g a cs tr s :
  run cs (init g a) = Some (tr, s) ->
  (length (items (frame_queue s)) <= 30)%nat /\
  puts tr = gets tr ++ items (frame_queue s).
Proof.
  intros Hrun. destruct (buffer_of_run _ _ _ _ _ Hrun) as (_ & Hl & Hc).
  split; assumption.
Qed.

Lemma buffer_bounded_and_lossless_witness :
  exists tr s,
    run quit_in_hardware_mode (init true a_hw) = Some (tr, s) /\
    puts tr = [frame0; frame0] /\ gets tr = [frame0] /\
    items (frame_queue s) = [frame0] /\
    (length (items (frame_queue s)) <= 30)%nat /\
    puts tr = gets tr ++ items (frame_queue s).
Proof.
  eval_run E quit_in_hardware_mode (init true a_hw).
  eexists _, _. split; [exact E|].
  split; [reflexivity|]. split; [reflexivity|]. split; [reflexivity|].
  exact (buffer_bounded_and_lossless _ _ _ _ _ E).
Defined.

Lemma In_puts f tr : In f (puts tr) -> In (LPut f) tr.
Proof.
  induction tr as [|[] tr IH]; cbn; try tauto.
  intros [->|Hin]; [now left|right; auto].
Qed.

Lemma In_gets f tr : In (LGet f) tr -> In f (gets tr).
Proof.
  induction tr as [|l tr IH]; cbn; [tauto|].
  intros [->|Hin]; [now left|].
  destruct l; cbn; auto.
Qed.

(** Every frame [main] takes from the buffer holds exactly
    [width * height * 3] bytes, the bytes of one read of the reader. *)
Theorem delivered_frames_are_whole {mach : Machine} g a cs tr s f :
  run cs (init g a) = Some (tr, s) ->
  In (LGet f) tr -> whole_frame tr f.
Proof.
  intros Hrun Hget.
  destruct (buffer_of_run _ _ _ _ _ Hrun) as (_ & _ & Hc).
  apply (proj1 (frames_of_run _ _ _ _ _ Hrun)).
  apply In_puts. rewrite Hc. apply in_or_app. left. now apply In_gets.
Qed.

Lemma delivered_frames_are_whole_witness :
  exists tr s,
    run quit_in_hardware_mode (init true a_hw) = Some (tr, s) /\
    In (LGet frame0) tr /\ whole_frame tr frame0.
Proof.
  eval_run E quit_in_hardware_mode (init true a_hw).
  assert (Hin : In (LGet frame0)
                  (trace_after quit_in_hardware_mode (init true a_hw)))
    by (vm_compute; tauto).
  eexists _, _. split; [exact E|]. split; [exact Hin|].
  exact (delivered_frames_are_whole _ _ _ _ _ frame0 E Hin).
Defined.

(** ** Processes *)

(** As long as no [read] raises, every decode process the reader has
    launched, except the one of the session in progress, has been killed;
    between two sessions and after the reader's return all of them have. *)
Theorem processes_killed_unless_read_raises {mach : Machine} g a cs tr s :
  run cs (init g a) = Some (tr, s) ->
  count is_read_fail tr = 0%nat ->
  no_leak s /\
  (between_sessions s -> forall i p, procs s !! i = Some p -> p_killed p = true).
Proof.
  intros Hrun Hz.
  assert (Hnl : no_leak s) by (eapply no_leak_without_read_error; eauto).
  split; [exact Hnl|].
  intros Hb i p Hi. destruct (Hnl i p Hi) as [Hk|(r & Hr & Hs)]; [exact Hk|].
  rewrite (Hb r Hr) in Hs. discriminate.
Qed.

Lemma processes_killed_unless_read_raises_witness :
  exists tr s p,
    run two_sessions (init true a_hw) = Some (tr, s) /\
    count is_read_fail tr = 0%nat /\
    procs s !! 0%nat = Some p /\
    (p_killed p = true \/ in_session s 0).
Proof.
  eval_run E two_sessions (init true a_hw).
  destruct (processes_killed_unless_read_raises _ _ _ _ _ E eq_refl)
    as [Hnl _].
  eexists _, _, _. split; [exact E|]. split; [reflexivity|].
  split; [reflexivity|]. exact (Hnl 0%nat _ eq_refl).
Defined.

(** ** The shutdown signal and the consume loop *)

Lemma stop_tracks_pc {mach : Machine} g a cs tr s :
  run cs (init g a) = Some (tr, s) ->
  stop_event s = negb (in_loop s) /\
  (reader s = None -> pc s = CStart).
Proof.
  revert cs tr s.
  apply (run_invariant (fun _ s =>
    stop_event s = negb (in_loop s) /\ (reader s = None -> pc s = CStart))).
  - split; reflexivity.
  - intros tr s c l s' [IH Hn] Hstep. unfold in_loop in *.
    step_cases Hstep; cbn in *; use_pc; cbn in *;
      (split;
       [ destruct_ifs; cbn; congruence
       | intros Hr; try discriminate Hr;
         try (specialize (Hn Hr); destruct_ifs; congruence);
         unfold reader_done in *; rewrite Hr in *; discriminate ]).
Qed.

(** The shutdown signal is clear whenever [main] is about to start the
    pipeline or is in the consume loop, and set everywhere else; so the
    test at the head of the consume loop never fails, and the loop is left
    only by the quit key (with preview) or by an interrupt. *)
Theorem consume_loop_exits {mach : Machine} g a cs tr s :
  run cs (init g a) = Some (tr, s) ->
  stop_event s = negb (in_loop s) /\
  forall i l s', pc s = CConsume -> main_step i s = Some (l, s') ->
    pc s' <> CConsume ->
    i = MInterrupt \/
    exists key, i = MFrame key /\ is_quit key = true /\
                no_preview (args s) = false.
Proof.
  intros Hrun. destruct (stop_tracks_pc _ _ _ _ _ Hrun) as [Hst _].
  split; [exact Hst|].
  intros i l s' Hpc Hstep Hout. unfold in_loop in Hst. rewrite Hpc in Hst.
  unfold main_step in Hstep. rewrite Hpc in Hstep.
  destruct i; try discriminate Hstep.
  - rewrite Hst in Hstep. cbn in Hstep.
    destruct (get (frame_queue s)); try discriminate.
    injection Hstep as <- <-. contradiction.
  - rewrite Hst in Hstep. cbn in Hstep.
    destruct (get (frame_queue s)) as [[f q]|]; try discriminate.
    destruct (no_preview (args s)) eqn:Hnp.
    + injection Hstep as <- <-. cbn in Hout. contradiction.
    + destruct (is_quit key) eqn:Hq.
      * right. exists key. auto.
      * injection Hstep as <- <-. cbn in Hout. contradiction.
  - now left.
  - rewrite Hst in Hstep. discriminate.
Qed.

Lemma consume_loop_exits_witness :
  exists tr s l s',
    run two_frames_buffered (init true a_hw) = Some (tr, s) /\
    pc s = CConsume /\ stop_event s = false /\
    main_step (MFrame 113) s = Some (l, s') /\ pc s' = CFinally false.
Proof.
  eval_run E two_frames_buffered (init true a_hw).
  eval_main E2 (MFrame 113) (state_after two_frames_buffered (init true a_hw)).
  destruct (consume_loop_exits _ _ _ _ _ E) as [Hst _].
  eexists _, _, _, _. split; [exact E|]. split; [reflexivity|].
  split; [exact Hst|]. split; [exact E2|reflexivity].
Defined.

(** While [main] is in the consume loop the reader thread has not
    returned: failed launches, ended streams and read errors never end
    it.  And when [main] has returned, the reader thread has returned
    too and the shutdown signal is set. *)
Theorem reader_lives_as_long_as_main_consumes {mach : Machine} g a cs tr s :
  run cs (init g a) = Some (tr, s) ->
  (pc s = CConsume -> exists r, reader s = Some r /\ r_pc r <> RDone) /\
  (pc s = CExit -> reader_done s = true /\ stop_event s = true).
Proof.
  intros Hrun.
  destruct (stop_tracks_pc _ _ _ _ _ Hrun) as [Hst Hnone].
  split.
  - revert cs tr s Hrun Hst Hnone.
    apply (run_invariant_r (fun _ s =>
      stop_event s = negb (in_loop s) ->
      (reader s = None -> pc s = CStart) ->
      pc s = CConsume -> exists r, reader s = Some r /\ r_pc r <> RDone)).
    + cbn. discriminate.
    + intros cs tr s c l s' Hrun IH Hstep Hst' Hnone' Hpc'.
      destruct (stop_tracks_pc _ _ _ _ _ Hrun) as [Hst Hnone].
      unfold in_loop in *.
      step_cases Hstep; cbn in *; use_pc; cbn in *; try discriminate;
        try (apply IH; auto; fail);
        try (eexists; split; [reflexivity|]; cbn; discriminate);
        try (destruct broke; discriminate);
        try (eexists; split; [eassumption|]; congruence).
  - intros Hpc.
    pose proof (one_reader_at_a_time _ _ _ _ _ Hrun) as Hj.
    unfold between_pipelines, joined, reader_done, in_loop in *.
    rewrite Hpc in *. specialize (Hj eq_refl).
    destruct (reader s) as [r|]; [|specialize (Hnone eq_refl); discriminate].
    rewrite Hj. auto.
Qed.

Lemma reader_lives_as_long_as_main_consumes_witness :
  exists tr s r,
    run two_sessions (init true a_hw) = Some (tr, s) /\
    pc s = CConsume /\ reader s = Some r /\ r_pc r <> RDone.
Proof.
  eval_run E two_sessions (init true a_hw).
  destruct (reader_lives_as_long_as_main_consumes _ _ _ _ _ E) as [Hlive _].
  destruct (Hlive eq_refl) as (r & Hr & Hpc).
  eexists _, _, r. split; [exact E|]. split; [reflexivity|].
  split; [exact Hr|exact Hpc].
Defined.

(** ** Modes and pipeline starts *)

(** In headless mode ([--no-preview]) there is no quit key, so the consume
    loop is left by an interrupt only and the fallback test is never
    reached: the mode chosen at startup is kept for the whole run, no
    fallback happens and the pipeline is started at most once. *)
Theorem headless_never_falls_back {mach : Machine} g a cs tr s :
  no_preview a = true ->
  run cs (init g a) = Some (tr, s) ->
  left_without_break s = false /\
  use_gpu s = g && negb (force_cpu a) /\ tried_gpu s = false /\
  count is_fallback tr = 0%nat /\ (count is_start tr <= 1)%nat.
Proof.
  intros Hnp Hrun.
  assert (Hinv : left_without_break s = false /\
                 use_gpu s = g && negb (force_cpu a) /\ tried_gpu s = false).
  { revert cs tr s Hrun.
    apply (run_invariant_r (fun _ s =>
      left_without_break s = false /\
      use_gpu s = g && negb (force_cpu a) /\ tried_gpu s = false)).
    - cbn. auto.
    - intros cs tr s c l s' Hrun (Hl & Hg & Ht) Hstep.
      destruct (stop_tracks_pc _ _ _ _ _ Hrun) as [Hst _].
      destruct (probes_from_init _ _ _ _ _ Hrun) as [_ Ha].
      unfold left_without_break, in_loop in *.
      step_cases Hstep; cbn in *; use_pc; cbn in *; auto;
        try congruence; try discriminate;
        try (destruct broke; cbn in *; auto; discriminate). }
  destruct Hinv as (Hl & Hg & Ht).
  destruct (counters_from_init _ _ _ _ _ Hrun) as (Hf & Hs & _).
  rewrite Ht in Hf. repeat split; auto.
  destruct (at_start s); lia.
Qed.

Lemma headless_never_falls_back_witness :
  exists tr s,
    run headless_run (init true a_headless) = Some (tr, s) /\
    pc s = CExit /\ gets tr = [frame0; frame0] /\
    use_gpu s = true /\ tried_gpu s = false /\
    count is_fallback tr = 0%nat /\ (count is_start tr <= 1)%nat.
Proof.
  eval_run E headless_run (init true a_headless).
  destruct (headless_never_falls_back true a_headless _ _ _ eq_refl E)
    as (_ & Hg & Ht & Hf & Hs).
  eexists _, _. split; [exact E|]. split; [reflexivity|].
  split; [reflexivity|]. split; [exact Hg|]. split; [exact Ht|].
  split; [exact Hf|exact Hs].
Defined.

(** When the run starts in software mode (no GPU, or [--force-cpu]), the
    mode stays software, the fallback flag stays unset, and the pipeline
    is started at most once: the first teardown ends the program. *)
Theorem software_start_never_switches {mach : Machine} g a cs tr s :
  g && negb (force_cpu a) = false ->
  run cs (init g a) = Some (tr, s) ->
  use_gpu s = false /\ tried_gpu s = false /\
  count is_fallback tr = 0%nat /\ (count is_start tr <= 1)%nat.
Proof.
  intros Hsw Hrun.
  assert (Hinv : use_gpu s = false /\ tried_gpu s = false).
  { revert cs tr s Hrun.
    apply (run_invariant (fun _ s => use_gpu s = false /\ tried_gpu s = false)).
    - cbn. auto.
    - intros tr s c l s' [Hg Ht] Hstep.
      step_cases Hstep; cbn in *; auto; congruence. }
  destruct Hinv as [Hg Ht].
  destruct (counters_from_init _ _ _ _ _ Hrun) as (Hf & Hs & _).
  rewrite Ht in Hf. repeat split; auto.
  destruct (at_start s); lia.
Qed.

Lemma software_start_never_switches_witness :
  exists tr s,
    run (two_frames_buffered ++ [Main (MFrame 113)]
         ++ teardown_with_reader_in_session) (init true a_cpu)
      = Some (tr, s) /\
    pc s = CExit /\
    use_gpu s = false /\ tried_gpu s = false /\
    count is_fallback tr = 0%nat /\ (count is_start tr <= 1)%nat.
Proof.
  eval_run E (two_frames_buffered ++ [Main (MFrame 113)]
              ++ teardown_with_reader_in_session) (init true a_cpu).
  eexists _, _. split; [exact E|]. split; [reflexivity|].
  exact (software_start_never_switches true a_cpu _ _ _ eq_refl E).
Defined.

(** In any run the pipeline is started at most twice and the stream is
    probed at most twice; a second start means the run has fallen back to
    software mode. *)
Theorem at_most_two_pipeline_starts {mach : Machine} g a cs tr s :
  run cs (init g a) = Some (tr, s) ->
  (count is_start tr <= 2)%nat /\ (count is_probe tr <= 2)%nat /\
  (count is_start tr = 2%nat -> use_gpu s = false /\ tried_gpu s = true).
Proof.
  intros Hrun.
  destruct (counters_from_init _ _ _ _ _ Hrun) as (Hf & Hs & Hm).
  destruct (probes_from_init _ _ _ _ _ Hrun) as [Hp _].
  rewrite Hp. destruct (tried_gpu s) eqn:Ht; destruct (at_start s);
    repeat split; try lia; auto.
Qed.

Lemma at_most_two_pipeline_starts_witness :
  exists tr s,
    run (quit_in_hardware_mode ++ teardown_with_reader_in_session
         ++ [Main (MProbe (1, 4, 2))]) (init true a_hw) = Some (tr, s) /\
    count is_start tr = 2%nat /\ (count is_probe tr <= 2)%nat /\
    use_gpu s = false /\ tried_gpu s = true.
Proof.
  eval_run E (quit_in_hardware_mode ++ teardown_with_reader_in_session
              ++ [Main (MProbe (1, 4, 2))]) (init true a_hw).
  destruct (at_most_two_pipeline_starts _ _ _ _ _ E) as (_ & Hp & Hsw).
  eexists _, _. split; [exact E|]. split; [reflexivity|].
  split; [exact Hp|]. exact (Hsw eq_refl).
Defined.

(** ** What the reader thread touches *)

(** A step of the reader thread leaves the arguments, the mode, the
    fallback flag, the place of [main] and the shutdown signal as they
    are; to the buffer it does nothing or appends one frame; and it never
    forgets a process. *)
Theorem reader_footprint {mach : Machine} i s l s' :
  reader_step i s = Some (l, s') ->
  args s' = args s /\ use_gpu s' = use_gpu s /\ tried_gpu s' = tried_gpu s /\
  pc s' = pc s /\ stop_event s' = stop_event s /\
  maxsize (frame_queue s') = maxsize (frame_queue s) /\
  (items (frame_queue s') = items (frame_queue s) \/
   exists f, items (frame_queue s') = items (frame_queue s) ++ [f]) /\
  (length (procs s) <= length (procs s'))%nat.
Proof.
  intros Hstep. unfold reader_step in Hstep.
  split_step Hstep; injection Hstep as <- <-; cbn;
    repeat split; auto;
    try (rewrite length_app; cbn; lia);
    try (rewrite length_insert; lia).
  - unfold put in *. destruct (full (frame_queue s)); simplify_eq. reflexivity.
  - unfold put in *. destruct (full (frame_queue s)); simplify_eq. cbn.
    right. eexists. reflexivity.
  - unfold kill. destruct (procs s !! pid); [rewrite length_insert|]; lia.
Qed.

Lemma reader_footprint_witness :
  exists s l s',
    s = state_after interrupt_before_put (init true a_hw) /\
    reader_step RGo s = Some (l, s') /\
    stop_event s' = stop_event s /\ pc s' = pc s /\
    items (frame_queue s') = items (frame_queue s) ++ [frame0].
Proof.
  eassert (E : reader_step RGo
                 (state_after interrupt_before_put (init true a_hw))
               = Some (_, _)) by (vm_compute; reflexivity).
  destruct (reader_footprint _ _ _ _ E) as (_ & _ & _ & Hpc & Hst & _).
  eexists _, _, _. split; [reflexivity|]. split; [exact E|].
  split; [exact Hst|]. split; [exact Hpc|reflexivity].
Defined.

(** ** Shutdown with a full buffer *)

(** When [main] has reached the join while the reader stands at [put] on
    a full buffer, neither thread can take a step any more: [join] waits
    for the reader, and the reader waits for a [get] that [main] will not
    make. *)
Theorem join_waits_forever_on_full_buffer {mach : Machine} s broke r pid f :
  pc s = CJoin broke ->
  reader s = Some r -> r_pc r = RPut pid f ->
  full (frame_queue s) = true ->
  forall c, step c s = None.
Proof.
  intros Hpc Hr Hrpc Hfull [i|i]; cbn.
  - unfold main_step, reader_done. rewrite Hpc, Hr, Hrpc. now destruct i.
  - unfold reader_step, put. rewrite Hr, Hrpc, Hfull. now destruct i.
Qed.

Lemma join_waits_forever_on_full_buffer_witness :
  exists tr s r f,
    run full_buffer_shutdown (init true a_hw) = Some (tr, s) /\
    pc s = CJoin true /\ reader s = Some r /\ r_pc r = RPut 0 f /\
    length (items (frame_queue s)) = 30%nat /\
    forall c, step c s = None.
Proof.
  eval_run E full_buffer_shutdown (init true a_hw).
  eexists _, _, _, _. split; [exact E|]. split; [reflexivity|].
  split; [reflexivity|]. split; [reflexivity|]. split; [reflexivity|].
  eapply join_waits_forever_on_full_buffer with (broke := true) (pid := 0%nat);
    reflexivity.
Defined.

(** ** A whole session *)

Lemma read_whole_step {mach : Machine} s r pid p c rest :
  reader s = Some r -> r_pc r = RInner pid -> stop_event s = false ->
  procs s !! pid = Some p -> p_out p = c ++ rest ->
  0 < r_width r -> 0 < r_height r ->
  readable (r_width r * r_height r * 3) = true ->
  Z.of_nat (length c) = r_width r * r_height r * 3 ->
  reader_step RGo s
  = Some ([LRead pid c],
          set_reader
            (set_procs s (<[pid := {| p_cmd := p_cmd p; p_out := rest;
                                      p_killed := p_killed p |}]> (procs s)))
            (at_pc r (RPut pid {| f_height := r_height r;
                                  f_width := r_width r; f_data := c |}))).
Proof.
  intros Hr Hpc Hst Hp Hout Hw Hh Hable Hlen.
  unfold reader_step. rewrite Hr, Hpc, Hst, Hp. cbv zeta.
  rewrite pipe_read_readable by exact Hable.
  rewrite Hout, <- Hlen, Nat2Z.id, take_app_length, drop_app_length.
  assert (Hnz : (Z.of_nat (length c) =? 0) = false)
    by (apply Z.eqb_neq; nia).
  rewrite Hnz, Z.ltb_irrefl. cbn [orb].
  unfold reshape.
  assert (Hc : (0 <=? r_height r) && (0 <=? r_width r)
               && (Z.of_nat (length c) =? r_height r * r_width r * 3) = true).
  { rewrite !andb_true_iff. repeat split.
    - apply Z.leb_le. lia.
    - apply Z.leb_le. lia.
    - apply Z.eqb_eq. lia. }
  now rewrite Hc.
Qed.

Lemma read_short_step {mach : Machine} s r pid p :
  reader s = Some r -> r_pc r = RInner pid -> stop_event s = false ->
  procs s !! pid = Some p ->
  0 < r_width r -> 0 < r_height r ->
  readable (r_width r * r_height r * 3) = true ->
  Z.of_nat (length (p_out p)) < r_width r * r_height r * 3 ->
  reader_step RGo s
  = Some ([LRead pid (p_out p)],
          set_reader
            (set_procs s (<[pid := {| p_cmd := p_cmd p; p_out := [];
                                      p_killed := p_killed p |}]> (procs s)))
            (at_pc r (RKill pid))).
Proof.
  intros Hr Hpc Hst Hp Hw Hh Hable Hlen.
  unfold reader_step. rewrite Hr, Hpc, Hst, Hp. cbv zeta.
  rewrite pipe_read_readable by exact Hable.
  rewrite take_ge, drop_ge by lia.
  apply Z.ltb_lt in Hlen. rewrite Hlen, orb_true_r. reflexivity.
Qed.

(** A session in which the decoder writes some whole frames and then less
    than a frame before its output ends, with a frame size that [read]
    can allocate, room in the buffer and no shutdown: the reader puts
    exactly those frames, in order, then kills the process and is back at
    the top of its loop. *)
Theorem session_yields_its_whole_frames {mach : Machine} chunks : forall tail s r pid p,
  reader s = Some r -> r_pc r = RInner pid -> stop_event s = false ->
  procs s !! pid = Some p -> p_out p = concat chunks ++ tail ->
  0 < r_width r -> 0 < r_height r ->
  readable (r_width r * r_height r * 3) = true ->
  Forall (fun c => Z.of_nat (length c) = r_width r * r_height r * 3) chunks ->
  Z.of_nat (length tail) < r_width r * r_height r * 3 ->
  has_room (frame_queue s) (length chunks) ->
  exists tr s',
    run (session_schedule (length chunks)) s = Some (tr, s') /\
    puts tr = frames_of (r_height r) (r_width r) chunks /\
    items (frame_queue s')
    = items (frame_queue s) ++ frames_of (r_height r) (r_width r) chunks /\
    reader s' = Some (at_pc r RTop) /\
    exists p', procs s' !! pid = Some p' /\ p_killed p' = true.
Proof.
  induction chunks as [|c chunks IH];
    intros tail s r pid p Hr Hpc Hst Hp Hout Hw Hh Hable Hall Htail Hroom.
  - cbn in Hout. subst tail.
    unfold session_schedule. cbn [length repeat concat app run step].
    rewrite (read_short_step s r pid p) by assumption.
    unfold reader_step at 1. cbn.
    eexists _, _. split; [reflexivity|]. cbn.
    split; [reflexivity|]. split; [now rewrite app_nil_r|].
    split; [reflexivity|].
    unfold kill.
    assert (Hlt : (pid < length (procs s))%nat) by (eapply lookup_lt_Some; eauto).
    rewrite list_lookup_insert_eq by exact Hlt.
    rewrite list_lookup_insert_eq by (rewrite length_insert; exact Hlt).
    eexists. split; reflexivity.
  - apply Forall_cons in Hall as [Hc Hall].
    cbn [concat] in Hout. rewrite <- app_assoc in Hout.
    assert (Hlt : (pid < length (procs s))%nat) by (eapply lookup_lt_Some; eauto).
    unfold session_schedule. cbn [length repeat concat app run step].
    rewrite (read_whole_step s r pid p c _ Hr Hpc Hst Hp Hout Hw Hh Hable Hc).
    unfold reader_step at 1. cbn [reader set_reader set_procs r_pc at_pc
                                  frame_queue].
    assert (Hput : put {| f_height := r_height r; f_width := r_width r;
                          f_data := c |} (frame_queue s)
                   = Some {| maxsize := maxsize (frame_queue s);
                             items := items (frame_queue s) ++
                               [{| f_height := r_height r;
                                   f_width := r_width r; f_data := c |}] |}).
    { unfold put, full, qsize.
      destruct ((0 <? maxsize (frame_queue s))
                && (maxsize (frame_queue s)
                    <=? Z.of_nat (length (items (frame_queue s))))) eqn:Hf;
        [|reflexivity].
      apply andb_prop in Hf as [H1 H2].
      apply Z.ltb_lt in H1. apply Z.leb_le in H2.
      destruct Hroom as [Hroom|Hroom]; cbn in Hroom; lia. }
    rewrite Hput.
    match goal with
    | |- context [run _ ?s2] =>
        destruct (IH tail s2 (at_pc r (RInner pid)) pid
                    {| p_cmd := p_cmd p; p_out := concat chunks ++ tail;
                       p_killed := p_killed p |})
          as (tr & s' & Hrun & Hputs & Hitems & Hreader & Hkilled)
    end; cbn; auto.
    + now rewrite list_lookup_insert_eq.
    + unfold has_room in *. cbn in *.
      destruct Hroom as [Hroom|Hroom]; [now left|right].
      rewrite ?length_app, ?List.length_app; cbn; lia.
    + fold (session_schedule (length chunks)). rewrite Hrun.
      eexists _, _. split; [reflexivity|]. cbn in *.
      split; [now rewrite Hputs|].
      split; [now rewrite Hitems, <- app_assoc|].
      split; [exact Hreader|exact Hkilled].
Qed.

Lemma session_yields_its_whole_frames_witness :
  exists s r tr s',
    s = state_after session_start (init true a_hw) /\
    reader s = Some r /\
    run (session_schedule 2) s = Some (tr, s') /\
    puts tr = [frame0; frame0] /\
    items (frame_queue s') = [frame0; frame0] /\
    reader s' = Some (at_pc r RTop) /\
    exists p', procs s' !! 0%nat = Some p' /\ p_killed p' = true.
Proof.
  eexists (state_after session_start (init true a_hw)), _.
  destruct (session_yields_its_whole_frames [six_bytes; six_bytes] [x00]
              (state_after session_start (init true a_hw)) _ 0%nat _
              eq_refl eq_refl eq_refl eq_refl eq_refl)
    as (tr & s' & Hrun & Hputs & Hitems & Hreader & Hkilled).
  - reflexivity.
  - reflexivity.
  - reflexivity.
  - repeat constructor.
  - cbn. lia.
  - right. cbn. lia.
  - exists tr, s'. split; [reflexivity|]. split; [reflexivity|].
    split; [exact Hrun|]. split; [exact Hputs|]. split; [exact Hitems|].
    split; [exact Hreader|exact Hkilled].
Defined.

(** ** Video information *)

Section VideoInfoFacts.

Context `{Outside}.
Variable splitlines : string -> list string.

(** [get_video_info] never divides by zero and returns no infinite rate:
    the rate it returns is 30 or the quotient of the two integers of a
    rate line [num/denom], with a denominator that is not zero and a
    quotient within the floats.  A rate line that is not of the form
    [num/denom], or whose quotient is beyond the floats, costs the
    dimensions too: the result is the default (640, 360, 30) even though
    width and height were readable. *)
Theorem video_info_rate_is_defined url w h fps :
  get_video_info splitlines url = (w, h, fps) ->
  (fps = Rate30 \/
   exists out line sn sd n d,
     check_output (info_cmd url) = Ok out /\
     splitlines out !! 2%nat = Some line /\
     split_on slash line = [sn; sd] /\
     int_of_str sn = Ok n /\ int_of_str sd = Ok d /\
     d <> 0 /\ quotient_overflows n d = false /\
     fps = RateQuot n d) /\
  (forall out line,
     check_output (info_cmd url) = Ok out ->
     splitlines out !! 2%nat = Some line ->
     length (split_on slash line) <> 2%nat ->
     (w, h, fps) = (640, 360, Rate30)) /\
  (forall out line sn sd n d,
     check_output (info_cmd url) = Ok out ->
     splitlines out !! 2%nat = Some line ->
     split_on slash line = [sn; sd] ->
     int_of_str sn = Ok n -> int_of_str sd = Ok d ->
     d <> 0 -> quotient_overflows n d = true ->
     (w, h, fps) = (640, 360, Rate30)).
Proof.
  unfold get_video_info, video_info_body. intros Hres. split; [|split].
  - destruct (check_output (info_cmd url)) as [out|e] eqn:Ho; cbn in Hres;
      [|injection Hres as <- <- <-; now left].
    destruct (splitlines out !! 0%nat) as [l0|]; cbn in Hres;
      [|injection Hres as <- <- <-; now left].
    destruct (caught (int_of_str l0)) as [w0|]; cbn in Hres;
      [|injection Hres as <- <- <-; now left].
    destruct (splitlines out !! 1%nat) as [l1|]; cbn in Hres;
      [|injection Hres as <- <- <-; now left].
    destruct (caught (int_of_str l1)) as [h0|]; cbn in Hres;
      [|injection Hres as <- <- <-; now left].
    destruct (splitlines out !! 2%nat) as [l2|] eqn:Hl; cbn in Hres;
      [|injection Hres as <- <- <-; now left].
    destruct (split_on slash l2) as [|sn [|sd [|x parts]]] eqn:Hs;
      cbn in Hres; try (injection Hres as <- <- <-; now left).
    destruct (int_of_str sn) as [num|e1] eqn:Hn; cbn in Hres;
      [|injection Hres as <- <- <-; now left].
    destruct (int_of_str sd) as [denom|e2] eqn:Hd; cbn in Hres;
      [|injection Hres as <- <- <-; now left].
    destruct (denom =? 0) eqn:Hz; [injection Hres as <- <- <-; now left|].
    destruct (quotient_overflows num denom) eqn:Hov;
      injection Hres as <- <- <-; [now left|].
    right. exists out, l2, sn, sd, num, denom.
    repeat split; auto. now apply Z.eqb_neq.
  - intros out line Ho Hl Hparts. rewrite Ho in Hres. cbn in Hres.
    destruct (splitlines out !! 0%nat) as [l0|]; cbn in Hres; [|now symmetry].
    destruct (caught (int_of_str l0)) as [w0|]; cbn in Hres; [|now symmetry].
    destruct (splitlines out !! 1%nat) as [l1|]; cbn in Hres; [|now symmetry].
    destruct (caught (int_of_str l1)) as [h0|]; cbn in Hres; [|now symmetry].
    rewrite Hl in Hres. cbn in Hres.
    destruct (split_on slash line) as [|n [|d [|x parts]]]; cbn in Hres;
      try (now symmetry).
  - intros out line sn sd n d Ho Hl Hs Hn Hd Hnz Hov.
    rewrite Ho in Hres. cbn in Hres.
    destruct (splitlines out !! 0%nat) as [l0|]; cbn in Hres; [|now symmetry].
    destruct (caught (int_of_str l0)) as [w0|]; cbn in Hres; [|now symmetry].
    destruct (splitlines out !! 1%nat) as [l1|]; cbn in Hres; [|now symmetry].
    destruct (caught (int_of_str l1)) as [h0|]; cbn in Hres; [|now symmetry].
    rewrite Hl in Hres. cbn in Hres. rewrite Hs, Hn, Hd in Hres. cbn in Hres.
    apply Z.eqb_neq in Hnz. rewrite Hnz, Hov in Hres. now symmetry.
Qed.

End VideoInfoFacts.

Lemma video_info_rate_is_defined_witness :
  @get_video_info (outside_lines "") (fun _ => three_lines "30000/1001") "u"
  = (1280, 720, RateQuot 30000 1001) /\
  (exists sn sd n d,
     split_on slash "30000/1001" = [sn; sd] /\
     @int_of_str (outside_lines "") sn = Ok n /\
     @int_of_str (outside_lines "") sd = Ok d /\
     d <> 0 /\ quotient_overflows n d = false /\
     RateQuot 30000 1001 = RateQuot n d) /\
  @get_video_info (outside_lines "")
    (fun _ => three_lines (huge_numeral ++ "/1")) "u"
  = (640, 360, Rate30).
Proof.
  split; [reflexivity|]. split.
  - destruct (proj1 (@video_info_rate_is_defined (outside_lines "")
                       (fun _ => three_lines "30000/1001") "u" 1280 720
                       (RateQuot 30000 1001) eq_refl))
      as [Hd|(out & line & sn & sd & n & d & _ & Hl & Hs & Hn & Hd & Hq)];
      [discriminate Hd|].
    injection Hl as <-. exists sn, sd, n, d. tauto.
  - destruct (@get_video_info (outside_lines "")
                (fun _ => three_lines (huge_numeral ++ "/1")) "u")
      as [[w h] fps] eqn:E.
    assert (Hs : split_on slash (huge_numeral ++ "/1")
                 = [huge_numeral; "1"%string]) by (vm_compute; reflexivity).
    assert (Hn : @int_of_str (outside_lines "") huge_numeral = Ok (10 ^ 400))
      by (vm_compute; reflexivity).
    assert (Hov : quotient_overflows (10 ^ 400) 1 = true)
      by (vm_compute; reflexivity).
    exact (proj2 (proj2 (@video_info_rate_is_defined (outside_lines "")
                           (fun _ => three_lines (huge_numeral ++ "/1")) "u"
                           w h fps E))
             "" (huge_numeral ++ "/1")%string huge_numeral "1"%string
             (10 ^ 400) 1
             eq_refl eq_refl Hs Hn eq_refl ltac:(discriminate) Hov).
Defined.

(** ** The decoder command and the frame size *)

Lemma build_ffmpeg_cmd_scale u g w h d cmd ow oh :
  build_ffmpeg_cmd u g w h d = (cmd, ow, oh) ->
  ow = (if truthy w then default 0 w else snd (fst d)) /\
  oh = (if truthy h then default 0 h else snd d) /\
  (ow <> 0 -> oh <> 0 ->
   exists pre, cmd = pre ++ ["-vf"; "scale=" +:+ str_of_int ow +:+ ":"
                                     +:+ str_of_int oh; "-"]%string).
Proof.
  destruct d as [[idx sw] sh]. unfold build_ffmpeg_cmd. cbn [fst snd].
  intros E. injection E as <- <- <-.
  split; [reflexivity|]. split; [reflexivity|].
  intros Hw Hh.
  apply Z.eqb_neq in Hw, Hh. rewrite Hw, Hh. cbn [negb andb].
  destruct g; eexists; rewrite <- app_assoc; reflexivity.
Qed.

(** In every run the reader thread works with a command and dimensions
    that one call of [build_ffmpeg_cmd] returned together: explicit
    [--width] and [--height] (when not 0) are its dimensions in every
    session, and when both dimensions are nonzero its command ends with
    the scale filter for exactly these dimensions, so the frame size it
    reads is the frame size the decoder is told to write. *)
Theorem reader_expects_what_decoder_is_told {mach : Machine} g a cs tr s r :
  run cs (init g a) = Some (tr, s) ->
  reader s = Some r ->
  (truthy (arg_width a) = true -> r_width r = default 0 (arg_width a)) /\
  (truthy (arg_height a) = true -> r_height r = default 0 (arg_height a)) /\
  (r_width r <> 0 -> r_height r <> 0 ->
   exists pre,
     r_cmd r = pre ++ ["-vf"; "scale=" +:+ str_of_int (r_width r) +:+ ":"
                                +:+ str_of_int (r_height r); "-"]%string).
Proof.
  intros Hrun Hr.
  assert (Hinv : exists m d,
            build_ffmpeg_cmd (url a) m (arg_width a) (arg_height a) d
            = (r_cmd r, r_width r, r_height r)).
  { revert r Hr. revert cs tr s Hrun.
    apply (run_invariant_r (fun _ s => forall r, reader s = Some r ->
      exists m d, build_ffmpeg_cmd (url a) m (arg_width a) (arg_height a) d
                  = (r_cmd r, r_width r, r_height r))).
    - cbn. discriminate.
    - intros cs tr s c l s' Hrun IH Hstep r Hr.
      destruct (probes_from_init _ _ _ _ _ Hrun) as [_ Ha].
      step_cases Hstep; cbn in Hr; try (now apply IH);
        simplify_eq; cbn; try (now apply IH).
      exists (use_gpu s), d.
      match goal with H : build_ffmpeg_cmd _ _ _ _ _ = _ |- _ => exact H end. }
  destruct Hinv as (m & d & Hb).
  destruct (build_ffmpeg_cmd_scale _ _ _ _ _ _ _ _ Hb) as (Hw & Hh & Hs).
  split; [intros Ht; rewrite Ht in Hw; exact Hw|].
  split; [intros Ht; rewrite Ht in Hh; exact Hh|exact Hs].
Qed.

Lemma reader_expects_what_decoder_is_told_witness :
  exists tr s r,
    run read_error_run (init true a_neg) = Some (tr, s) /\
    reader s = Some r /\ r_width r = -2 /\ r_height r = 1 /\
    exists pre, r_cmd r = pre ++ ["-vf"; "scale=-2:1"; "-"]%string.
Proof.
  eval_run E read_error_run (init true a_neg).
  destruct (reader_expects_what_decoder_is_told _ _ _ _ _ _ E eq_refl)
    as (Hw & Hh & Hs).
  eexists _, _, _. split; [exact E|]. split; [reflexivity|].
  split; [exact (Hw eq_refl)|]. split; [exact (Hh eq_refl)|].
  apply Hs; cbn; lia.
Defined.
